(** * Replay buffer and A3C synchronisation gate: a shallow embedding

    The development follows two source files:
    - [models/frames/buffers/replay_buffer.py]: classes [Transition] and
      [ReplayBuffer];
    - [machin/frame/algorithms/a3c.py]: class [A3C].

    Python objects that are mutated in place (dictionaries, [Transition]
    instances) live in an explicit heap and are referred to by location, so
    that aliasing between the caller's record and the stored record is
    visible.  Exceptions are values of type [exn]; a raising computation
    still returns the heap it has reached. *)

From Stdlib Require Import ZArith QArith List String Bool Lia.
From stdpp Require Import base list relations.
Import ListNotations.

Close Scope Q_scope.
Local Open Scope string_scope.
Local Open Scope list_scope.

(** ** Python values, exceptions and the heap *)

Module Py.

Inductive exn : Type :=
| RuntimeError
| ValueError
| IndexError
| TypeError
| KeyError
| AttributeError.

Inductive result (A : Type) : Type :=
| Ok (a : A)
| Raise (e : exn).
Arguments Ok {A} a.
Arguments Raise {A} e.

Definition rbind {A B : Type} (r : result A) (k : A -> result B) : result B :=
  match r with
  | Ok a => k a
  | Raise e => Raise e
  end.

Definition is_ok {A : Type} (r : result A) : bool :=
  match r with Ok _ => true | Raise _ => false end.

(** A torch tensor: its shape, the device holding it and its elements in
    row-major order.  Python floats are carried as rationals; no arithmetic
    is ever performed on them by the modelled code. *)
Record tensor : Type := mkTensor {
  shape : list nat;
  device : string;
  data : list Q
}.

(** Heap locations. *)
Abbreviation loc := nat.

Inductive value : Type :=
| VNone
| VBool (b : bool)
| VInt (n : Z)
| VFloat (x : Q)
| VStr (s : string)
| VTensor (t : tensor)
| VRef (l : loc).

(** A Python [dict] with string keys: insertion-ordered, keys unique. *)
Definition dict : Type := list (string * value).

Fixpoint dict_get (d : dict) (k : string) : option value :=
  match d with
  | [] => None
  | (k', v) :: d' => if String.eqb k k' then Some v else dict_get d' k
  end.

(** [d[k] = v]: an existing key keeps its position. *)
Fixpoint dict_set (d : dict) (k : string) (v : value) : dict :=
  match d with
  | [] => [(k, v)]
  | (k', v') :: d' =>
      if String.eqb k k' then (k', v) :: d' else (k', v') :: dict_set d' k v
  end.

Definition dict_keys (d : dict) : list string := map fst d.
Definition dict_values (d : dict) : list value := map snd d.

Fixpoint mem (k : string) (l : list string) : bool :=
  match l with
  | [] => false
  | k' :: l' => String.eqb k k' || mem k l'
  end.

(** [torch.is_tensor]. *)
Definition is_tensor (v : value) : bool :=
  match v with VTensor _ => true | _ => false end.

(** [v.to(device)]: only tensors have the method. *)
Definition value_to (dev : string) (v : value) : result value :=
  match v with
  | VTensor t => Ok (VTensor (mkTensor (shape t) dev (data t)))
  | _ => Raise AttributeError
  end.

(** [float(v)] for the values the buffer converts.  A tensor converts when
    it holds exactly one element; strings are not parsed. *)
Definition py_float (v : value) : result Q :=
  match v with
  | VBool b => Ok (if b then 1%Q else 0%Q)
  | VInt n => Ok (inject_Z n)
  | VFloat x => Ok x
  | VTensor t =>
      match data t with
      | [x] => Ok x
      | _ => Raise ValueError
      end
  | VStr _ => Raise ValueError
  | VNone | VRef _ => Raise TypeError
  end.

(** List indexing [l[i]] and item assignment [l[i] = x] with Python's
    negative indices. *)
Definition norm_index (len : nat) (i : Z) : option nat :=
  if (0 <=? i)%Z then
    (if (i <? Z.of_nat len)%Z then Some (Z.to_nat i) else None)
  else
    (if (- Z.of_nat len <=? i)%Z then Some (Z.to_nat (Z.of_nat len + i)) else None).

Definition list_getitem {A : Type} (l : list A) (i : Z) : result A :=
  match norm_index (length l) i with
  | Some n =>
      match l !! n with
      | Some x => Ok x
      | None => Raise IndexError
      end
  | None => Raise IndexError
  end.

Definition list_setitem {A : Type} (l : list A) (i : Z) (x : A) : result (list A) :=
  match norm_index (length l) i with
  | Some n => Ok (<[n := x]> l)
  | None => Raise IndexError
  end.

End Py.
Import Py.

(** ** The heap of mutable objects *)

Module Transition.

(** Instance attributes of a [Transition].  [extras] holds the attributes
    set from [**kwargs], in keyword order; keyword names are assumed not to
    shadow the class's own attributes and methods. *)
Record t : Type := mk {
  _length : Z;
  _keys : list string;
  state : value;
  action : value;
  next_state : value;
  reward : value;
  terminal : value;
  extras : dict
}.

Definition set_reward (r : value) (tr : t) : t :=
  mk (_length tr) (_keys tr) (state tr) (action tr) (next_state tr) r
     (terminal tr) (extras tr).

End Transition.

Inductive obj : Type :=
| ODict (d : dict)
| OTransition (tr : Transition.t).

Abbreviation heap := (list obj).

(** Heap computations: the heap reached is returned also when the
    computation raises, as in-place mutations are not rolled back. *)
Definition M (A : Type) : Type := heap -> heap * result A.

Definition ret {A : Type} (a : A) : M A := fun h => (h, Ok a).
Definition raise {A : Type} (e : exn) : M A := fun h => (h, Raise e).
Definition bind {A B : Type} (m : M A) (k : A -> M B) : M B :=
  fun h =>
    match m h with
    | (h', Ok a) => k a h'
    | (h', Raise e) => (h', Raise e)
    end.
Definition lift {A : Type} (r : result A) : M A := fun h => (h, r).
Definition read {A : Type} (f : heap -> result A) : M A := fun h => (h, f h).
Definition alloc (o : obj) : M loc := fun h => (h ++ [o], Ok (length h)).
Definition store (l : loc) (o : obj) : M unit := fun h => (<[l := o]> h, Ok tt).

Declare Scope py_scope.
Delimit Scope py_scope with py.
Notation "'let*' x ':=' m 'in' k" := (bind m (fun x => k))
  (at level 10, x name, m at level 100, k at level 200) : py_scope.
Notation "'do*' m 'in' k" := (bind m (fun _ => k))
  (at level 10, m at level 100, k at level 200) : py_scope.
Notation "'let+' x ':=' m 'in' k" := (rbind m (fun x => k))
  (at level 10, x name, m at level 100, k at level 200) : py_scope.
Local Open Scope py_scope.

Fixpoint mapR {A B : Type} (f : A -> result B) (l : list A) : result (list B) :=
  match l with
  | [] => Ok []
  | a :: l' =>
      let+ b := f a in
      let+ bs := mapR f l' in
      Ok (b :: bs)
  end.

Definition get_dict (h : heap) (v : value) : result dict :=
  match v with
  | VRef l =>
      match h !! l with
      | Some (ODict d) => Ok d
      | _ => Raise AttributeError
      end
  | _ => Raise AttributeError
  end.

Definition get_transition (h : heap) (l : loc) : result Transition.t :=
  match h !! l with
  | Some (OTransition tr) => Ok tr
  | _ => Raise AttributeError
  end.

(** ** class Transition *)

Module TransitionOps.
Import Transition.

Definition base_keys : list string :=
  ["state"; "action"; "next_state"; "reward"; "terminal"].

(** [len(transition)]. *)
Definition len (tr : t) : Z := _length tr.

(** [transition.keys()]. *)
Definition keys (tr : t) : list string := _keys tr.

(** [transition.has_keys(keys)]. *)
Definition has_keys (tr : t) (ks : list string) : bool :=
  forallb (fun k => mem k (_keys tr)) ks.

(** [transition[item]], that is [getattr(self, item)]. *)
Definition getitem (tr : t) (item : string) : result value :=
  if String.eqb item "state" then Ok (state tr)
  else if String.eqb item "action" then Ok (action tr)
  else if String.eqb item "next_state" then Ok (next_state tr)
  else if String.eqb item "reward" then Ok (reward tr)
  else if String.eqb item "terminal" then Ok (terminal tr)
  else match dict_get (extras tr) item with
       | Some v => Ok v
       | None => Raise AttributeError
       end.

(** [x.values()] of an attribute that should be a dictionary. *)
Definition values_of (h : heap) (v : value) : result (list value) :=
  let+ d := get_dict h v in Ok (dict_values d).

Definition any_not_tensor (vs : list value) : bool :=
  existsb (fun v => negb (is_tensor v)) vs.

Definition shape_of (v : value) : result (list nat) :=
  match v with
  | VTensor x => Ok (shape x)
  | _ => Raise AttributeError
  end.

(** [s[0]] on a shape. *)
Definition leading (s : list nat) : result Z :=
  match s with
  | [] => Raise IndexError
  | d :: _ => Ok (Z.of_nat d)
  end.

(** The batch size read off the reward (lines 68-73). *)
Definition reward_batch_size (r : value) : result Z :=
  match r with
  | VFloat _ => Ok 1%Z
  | VTensor x =>
      if (length (shape x) =? 2)%nat then leading (shape x)
      else Raise RuntimeError
  | _ => Raise AttributeError
  end.

(** [Transition._check_input]. *)
Definition _check_input (h : heap) (tr : t) : result unit :=
  let+ sv := values_of h (state tr) in
  if any_not_tensor sv then Raise RuntimeError else
  let+ av := values_of h (action tr) in
  if any_not_tensor av then Raise RuntimeError else
  let+ nv := values_of h (next_state tr) in
  if any_not_tensor nv then Raise RuntimeError else
  let+ tensor_shapes := mapR shape_of (sv ++ av ++ nv) in
  let+ batch_size := reward_batch_size (reward tr) in
  let+ firsts := mapR leading tensor_shapes in
  if forallb (fun d => (d =? batch_size)%Z) firsts then Ok tt
  else Raise RuntimeError.

(** [Transition.__init__]: the attributes are set, then validated; the
    object becomes reachable only when validation passes. *)
Definition init (state action next_state reward terminal : value)
    (kwargs : dict) : M loc :=
  let tr := mk (5 + Z.of_nat (length kwargs))
               (base_keys ++ dict_keys kwargs)
               state action next_state reward terminal kwargs in
  do* read (fun h => _check_input h tr) in
  alloc (OTransition tr).

(** Construction from a plain mapping [d], its entries passed as keyword
    arguments: the five named parameters
    must be present, every other entry is a keyword argument. *)
Definition remaining (d : dict) : dict :=
  filter (fun kv => negb (mem (fst kv) base_keys)) d.

Definition init_from_dict (d : dict) : M loc :=
  match dict_get d "state", dict_get d "action", dict_get d "next_state",
        dict_get d "reward", dict_get d "terminal" with
  | Some s, Some a, Some n, Some r, Some tm => init s a n r tm (remaining d)
  | _, _, _, _, _ => raise TypeError
  end.

(** The loop [for k, v in d.items(): d[k] = v.to(device)] on the
    dictionary at [dv]. *)
Fixpoint migrate_items (l : loc) (dev : string) (items : dict) : M unit :=
  match items with
  | [] => ret tt
  | (k, v) :: rest =>
      let* v' := lift (value_to dev v) in
      let* d := read (fun h => get_dict h (VRef l)) in
      do* store l (ODict (dict_set d k v')) in
      migrate_items l dev rest
  end.

Definition migrate_dict (dv : value) (dev : string) : M unit :=
  let* d := read (fun h => get_dict h dv) in
  match dv with
  | VRef l => migrate_items l dev d
  | _ => raise AttributeError
  end.

(** [Transition.to]. *)
Definition to (l : loc) (dev : string) : M unit :=
  let* tr := read (fun h => get_transition h l) in
  do* migrate_dict (state tr) dev in
  do* migrate_dict (action tr) dev in
  do* migrate_dict (next_state tr) dev in
  let* tr' := read (fun h => get_transition h l) in
  if is_tensor (reward tr') then
    let* r := lift (value_to dev (reward tr')) in
    store l (OTransition (set_reward r tr'))
  else ret tt.

End TransitionOps.

(** ** The torch operations used by the buffer *)

Module Torch.

Definition numel (s : list nat) : nat := fold_right Nat.mul 1%nat s.

Definition is_empty_1d (x : tensor) : bool :=
  match shape x with
  | [O] => true
  | _ => false
  end.

Definition lead (x : tensor) : nat := hd O (shape x).

Fixpoint shape_eqb (s1 s2 : list nat) : bool :=
  match s1, s2 with
  | [], [] => true
  | a :: s1', b :: s2' => (a =? b)%nat && shape_eqb s1' s2'
  | _, _ => false
  end.

(** [torch.cat(ts, dim=0)]: the operands agree on every dimension but the
    first; one-dimensional empty operands are skipped. *)
Definition cat (ts : list tensor) : result tensor :=
  match ts with
  | [] => Raise RuntimeError
  | t0 :: _ =>
      match filter (fun x => negb (is_empty_1d x)) ts with
      | [] => Ok (mkTensor [O] (device t0) [])
      | x0 :: xs =>
          match shape x0 with
          | [] => Raise RuntimeError
          | _ :: rest =>
              if forallb (fun x => match shape x with
                                   | [] => false
                                   | _ :: r => shape_eqb r rest
                                   end) xs
              then Ok (mkTensor
                         (fold_right Nat.add O (map lead (x0 :: xs)) :: rest)
                         (device x0)
                         (concat (map data (x0 :: xs))))
              else Raise RuntimeError
          end
      end
  end.

(** [x.view(n, -1)]: the second dimension is inferred from the number of
    elements, which must be a multiple of [n]; a tensor without elements
    gets the shape [[n, 0]].  Torch refuses every [n <= 0] here: with
    [n = 0] the inferred dimension is ambiguous or the element count is
    wrong, [-1] may be given once only, and other negative sizes are
    invalid. *)
Definition view (x : tensor) (n : Z) : result tensor :=
  if (n <=? 0)%Z then Raise RuntimeError
  else
    let k := Z.to_nat n in
    if (numel (shape x) mod k =? 0)%nat
    then Ok (mkTensor [k; (numel (shape x) / k)%nat] (device x) (data x))
    else Raise RuntimeError.

(** The element that [torch.tensor] makes of one list member: numbers are
    taken, [None] and objects have no dtype ([RuntimeError]), strings and
    tensors are refused as nested sequences ([ValueError]). *)
Definition scalar (v : value) : result Q :=
  match v with
  | VBool b => Ok (if b then 1%Q else 0%Q)
  | VInt n => Ok (inject_Z n)
  | VFloat x => Ok x
  | VNone | VRef _ => Raise RuntimeError
  | VStr _ | VTensor _ => Raise ValueError
  end.

(** The rationals that single precision holds exactly: [m * 2^e] with [m]
    odd of at most 24 bits, [e >= -149] and a magnitude below [2^128]. *)
Definition is_float32 (q : Q) : bool :=
  let r := Qred q in
  let n := Z.abs (Qnum r) in
  let d := Zpos (Qden r) in
  if (n =? 0)%Z then true
  else
    let low := Z.land n (- n) in
    let m := (n / low)%Z in
    let e := (Z.log2 low - Z.log2 d)%Z in
    (Z.land d (d - 1) =? 0)%Z
    && (Z.log2 m <? 24)%Z
    && (-149 <=? e)%Z
    && (Z.log2 m + 1 + e <=? 128)%Z.

(** [torch.tensor(xs, device=dev)] on a flat list of Python floats.  The
    elements are carried as they are given; torch keeps them in single
    precision, so what is said of the elements of such a tensor is said
    for values that satisfy [is_float32], which torch stores unchanged. *)
Definition tensor_of_floats (xs : list Q) (dev : string) : tensor :=
  mkTensor [length xs] dev xs.

Definition is_float (v : value) : bool :=
  match v with VFloat _ => true | _ => false end.

Definition in_int64 (v : value) : bool :=
  match v with
  | VInt n => ((- 2 ^ 63 <=? n) && (n <? 2 ^ 63))%Z
  | _ => true
  end.

(** [torch.tensor(vs, device=dev)] on a list of values; only flat lists
    of numbers are modelled, anything else is rejected.  Without a float
    in the list the tensor holds 64-bit integers, and an integer outside
    their range is refused ([RuntimeError]). *)
Definition tensor_of_values (vs : list value) (dev : string) : result tensor :=
  let+ xs := mapR scalar vs in
  if existsb is_float vs || forallb in_int64 vs
  then Ok (tensor_of_floats xs dev)
  else Raise RuntimeError.

End Torch.

(** ** Python's [random] module, driven by an explicit entropy source *)

Module Random.

(** The [i]-th raw draw of the generator. *)
Definition source : Type := nat -> nat.

(** [random.randint(a, b)]. *)
Definition randint (a b : Z) (raw : nat) : result Z :=
  if (b <? a)%Z then Raise ValueError
  else Ok (a + Z.of_nat raw mod (b - a + 1))%Z.

Fixpoint remove_at {A : Type} (j : nat) (l : list A) : list A :=
  match l, j with
  | [], _ => []
  | _ :: l', O => l'
  | a :: l', S j' => a :: remove_at j' l'
  end.

Fixpoint pick {A : Type} (draw : source) (i k : nat) (pop : list A) : list A :=
  match k with
  | O => []
  | S k' =>
      let j := (draw i mod length pop)%nat in
      match pop !! j with
      | Some a => a :: pick draw (S i) k' (remove_at j pop)
      | None => []
      end
  end.

(** [random.sample(population, k)]: [k] distinct positions. *)
Definition sample {A : Type} (draw : source) (pop : list A) (k : Z)
    : result (list A) :=
  if ((k <? 0) || (Z.of_nat (length pop) <? k))%Z then Raise ValueError
  else Ok (pick draw O (Z.to_nat k) pop).

End Random.

(** ** class ReplayBuffer *)

Module ReplayBuffer.
Import Transition TransitionOps.

Record t : Type := mk {
  buffer_size : Z;
  buffer_device : string;
  buffer : list loc;
  index : Z;
  main_attrs : list string
}.

Definition default_main_attrs : list string := ["state"; "action"; "next_state"].

(** [ReplayBuffer.__init__]. *)
Definition init (buffer_size : Z) (buffer_device : string)
    (main_attributes : option (list string)) : t :=
  mk buffer_size buffer_device [] 0%Z
     (match main_attributes with
      | None => default_main_attrs
      | Some m => m
      end).

Definition set_buffer (b : list loc) (self : t) : t :=
  mk (buffer_size self) (buffer_device self) b (index self) (main_attrs self).

Definition set_index (i : Z) (self : t) : t :=
  mk (buffer_size self) (buffer_device self) (buffer self) i (main_attrs self).

(** [ReplayBuffer.size]. *)
Definition size (self : t) : Z := Z.of_nat (length (buffer self)).

(** [ReplayBuffer.clear]: [self.buffer.clear()] and nothing else. *)
Definition clear (self : t) : t := set_buffer [] self.

(** The argument of [append]: a [Transition] object or a plain mapping. *)
Inductive arg : Type :=
| ArgObj (l : loc)
| ArgDict (d : dict).

Definition default_required_keys : list string :=
  ["state"; "action"; "next_state"; "reward"; "terminal"].

(** Lines 118-119. *)
Definition resolve (a : arg) : M loc :=
  match a with
  | ArgObj l => ret l
  | ArgDict d => init_from_dict d
  end.

(** Lines 125-138, once the record has been migrated.  The modulo of line
    134 is reached only after the assignment of line 132 succeeded, hence
    with a positive [buffer_size]. *)
Definition place (self : t) (l : loc) (h : heap) : t * result Z :=
  match (if (size self =? 0)%Z then Ok false
         else let+ b0 := list_getitem (buffer self) 0 in
              let+ first := get_transition h b0 in
              let+ tr := get_transition h l in
              Ok (negb (len first =? len tr)%Z)) with
  | Raise e => (self, Raise e)
  | Ok true => (self, Raise ValueError)
  | Ok false =>
      let self1 :=
        if (buffer_size self <? size self)%Z
        then set_buffer (drop (Z.to_nat (size self - buffer_size self))
                              (buffer self)) self
        else self in
      if (size self1 =? buffer_size self1)%Z then
        let position := index self1 in
        match list_setitem (buffer self1) (index self1) l with
        | Raise e => (self1, Raise e)
        | Ok b =>
            let self2 := set_buffer b self1 in
            let self3 := set_index (index self2 + 1)%Z self2 in
            (set_index (index self3 mod buffer_size self3)%Z self3, Ok position)
        end
      else
        let self2 := set_buffer (buffer self1 ++ [l]) self1 in
        (self2, Ok (Z.of_nat (length (buffer self2)) - 1)%Z)
  end.

(** [ReplayBuffer.append]. *)
Definition append (self : t) (transition : arg) (required_keys : list string)
    (h : heap) : heap * t * result Z :=
  match resolve transition h with
  | (h1, Raise e) => (h1, self, Raise e)
  | (h1, Ok l) =>
      match get_transition h1 l with
      | Raise e => (h1, self, Raise e)
      | Ok tr =>
          if negb (has_keys tr required_keys)
          then (h1, self, Raise RuntimeError)
          else
            match to l (buffer_device self) h1 with
            | (h2, Raise e) => (h2, self, Raise e)
            | (h2, Ok _) =>
                let '(self', r) := place self l h2 in (h2, self', r)
            end
      end
  end.

(** *** Sampling *)

(** [ReplayBuffer.sample_method_random_unique]. *)
Definition sample_method_random_unique (draw : Random.source)
    (buffer : list loc) (batch_size : Z) : result (list loc * Z) :=
  if (Z.of_nat (length buffer) <? batch_size)%Z then
    let+ batch := Random.sample draw buffer (Z.of_nat (length buffer)) in
    Ok (batch, Z.of_nat (length buffer))
  else
    let+ batch := Random.sample draw buffer batch_size in
    Ok (batch, batch_size).

(** [ReplayBuffer.sample_method_random]. *)
Definition sample_method_random (draw : Random.source)
    (buffer : list loc) (batch_size : Z) : result (list loc * Z) :=
  let+ indexes :=
    mapR (fun i => Random.randint 0 (Z.of_nat (length buffer) - 1) (draw i))
         (seq 0 (Z.to_nat batch_size)) in
  let+ batch := mapR (fun i => list_getitem buffer i) indexes in
  Ok (batch, batch_size).

(** [ReplayBuffer.sample_method_all]. *)
Definition sample_method_all (buffer : list loc) (_ : Z)
    : result (list loc * Z) :=
  Ok (buffer, Z.of_nat (length buffer)).

(** The [sample_method] argument: a name, or a caller's function. *)
Inductive sampler : Type :=
| ByName (name : string)
| Custom (f : list loc -> Z -> result (list loc * Z)).

(** Lines 200-204: the lookup of ["sample_method_" + name] and the call. *)
Definition run_sampler (draw : Random.source) (m : sampler)
    (buffer : list loc) (batch_size : Z) : result (list loc * Z) :=
  match m with
  | ByName name =>
      if String.eqb name "random_unique"
      then sample_method_random_unique draw buffer batch_size
      else if String.eqb name "random"
      then sample_method_random draw buffer batch_size
      else if String.eqb name "all"
      then sample_method_all buffer batch_size
      else Raise RuntimeError
  | Custom f => f buffer batch_size
  end.

(** One entry of the tuple returned by [concatenate_batch]. *)
Inductive out : Type :=
| OutDict (d : list (string * tensor))
| OutDictList (d : list (string * list tensor))
| OutTensor (x : tensor)
| OutList (vs : list value).

(** [item[k]] for a batch member. *)
Definition item_get (h : heap) (k : string) (item : loc) : result value :=
  let+ tr := get_transition h item in getitem tr k.

(** [v[sub_k]]. *)
Definition subscript (h : heap) (v : value) (sub_k : string) : result value :=
  match v with
  | VRef l =>
      match h !! l with
      | Some (ODict d) =>
          match dict_get d sub_k with
          | Some x => Ok x
          | None => Raise KeyError
          end
      | Some (OTransition tr) => getitem tr sub_k
      | None => Raise TypeError
      end
  | _ => Raise TypeError
  end.

(** [v.to(device)] as a tensor. *)
Definition tensor_to (dev : string) (v : value) : result tensor :=
  match v with
  | VTensor x => Ok (mkTensor (shape x) dev (data x))
  | _ => Raise AttributeError
  end.

(** [[item[k][sub_k].to(device) for item in batch]]. *)
Definition gather_sub (h : heap) (dev k sub_k : string) (batch : list loc)
    : result (list tensor) :=
  mapR (fun item =>
          let+ v := item_get h k item in
          let+ x := subscript h v sub_k in
          tensor_to dev x) batch.

(** Lines 222-228: the dictionary built for a main attribute. *)
Definition concat_main (h : heap) (dev k : string) (concatenate : bool)
    (batch : list loc) : result out :=
  let+ b0 := list_getitem batch 0 in
  let+ v0 := item_get h k b0 in
  let+ d0 := get_dict h v0 in
  if concatenate then
    let+ tmp_dict :=
      mapR (fun sub_k =>
              let+ ts := gather_sub h dev k sub_k batch in
              let+ c := Torch.cat ts in
              Ok (sub_k, c)) (dict_keys d0) in
    Ok (OutDict tmp_dict)
  else
    let+ tmp_dict :=
      mapR (fun sub_k =>
              let+ ts := gather_sub h dev k sub_k batch in
              Ok (sub_k, ts)) (dict_keys d0) in
    Ok (OutDictList tmp_dict).

(** [torch.tensor([float(item[k]) for item in batch], device=device)
     .view(batch_size, -1)]. *)
Definition float_column (h : heap) (dev k : string) (batch : list loc)
    (batch_size : Z) : result out :=
  let+ xs := mapR (fun item => let+ v := item_get h k item in py_float v)
                  batch in
  let+ x := Torch.view (Torch.tensor_of_floats xs dev) batch_size in
  Ok (OutTensor x).

(** Lines 231-236. *)
Definition concat_reward (h : heap) (dev : string) (batch : list loc)
    (batch_size : Z) : result out :=
  let+ b0 := list_getitem batch 0 in
  let+ r0 := item_get h "reward" b0 in
  match r0 with
  | VTensor x0 =>
      if (0 <? length (shape x0))%nat then
        let+ ts := mapR (fun item => let+ v := item_get h "reward" item in
                                     tensor_to dev v) batch in
        let+ c := Torch.cat ts in
        let+ x := Torch.view c batch_size in
        Ok (OutTensor x)
      else float_column h dev "reward" batch batch_size
  | _ => float_column h dev "reward" batch batch_size
  end.

(** Lines 247-251 and 253-257: a custom key. *)
Definition concat_custom (h : heap) (dev k : string) (batch : list loc)
    (batch_size : Z) (additional_concat_keys : list string) : result out :=
  let+ vs := mapR (item_get h k) batch in
  if mem k additional_concat_keys then
    let+ x0 := Torch.tensor_of_values vs dev in
    let+ x := Torch.view x0 batch_size in
    Ok (OutTensor x)
  else Ok (OutList vs).

(** Lines 244-251: the wildcard key. *)
Fixpoint concat_wildcard (h : heap) (dev : string) (batch : list loc)
    (batch_size : Z) (additional_concat_keys used_keys : list string)
    (remain : list string) : result (list out) :=
  match remain with
  | [] => Ok []
  | remain_k :: rest =>
      if negb (mem remain_k base_keys) && negb (mem remain_k used_keys) then
        let+ o := concat_custom h dev remain_k batch batch_size
                    additional_concat_keys in
        let+ os := concat_wildcard h dev batch batch_size
                     additional_concat_keys used_keys rest in
        Ok (o :: os)
      else concat_wildcard h dev batch batch_size additional_concat_keys
             used_keys rest
  end.

(** The loop of [concatenate_batch] over [sample_keys], carrying
    [used_keys]. *)
Fixpoint concat_loop (self : t) (h : heap) (batch : list loc) (batch_size : Z)
    (concatenate : bool) (dev : string)
    (additional_concat_keys used_keys sample_keys : list string)
    : result (list out) :=
  match sample_keys with
  | [] => Ok []
  | k :: rest =>
      if mem k (main_attrs self) then
        let+ o := concat_main h dev k concatenate batch in
        let+ os := concat_loop self h batch batch_size concatenate dev
                     additional_concat_keys (used_keys ++ [k]) rest in
        Ok (o :: os)
      else if String.eqb k "reward" then
        let+ o := concat_reward h dev batch batch_size in
        let+ os := concat_loop self h batch batch_size concatenate dev
                     additional_concat_keys (used_keys ++ [k]) rest in
        Ok (o :: os)
      else if String.eqb k "terminal" then
        let+ o := float_column h dev "terminal" batch batch_size in
        let+ os := concat_loop self h batch batch_size concatenate dev
                     additional_concat_keys (used_keys ++ [k]) rest in
        Ok (o :: os)
      else if String.eqb k "*" then
        let+ b0 := list_getitem batch 0 in
        let+ tr0 := get_transition h b0 in
        let+ o := concat_wildcard h dev batch batch_size
                    additional_concat_keys used_keys (keys tr0) in
        let+ os := concat_loop self h batch batch_size concatenate dev
                     additional_concat_keys used_keys rest in
        Ok (o ++ os)
      else
        let+ o := concat_custom h dev k batch batch_size
                    additional_concat_keys in
        let+ os := concat_loop self h batch batch_size concatenate dev
                     additional_concat_keys (used_keys ++ [k]) rest in
        Ok (o :: os)
  end.

(** [ReplayBuffer.concatenate_batch]. *)
Definition concatenate_batch (self : t) (h : heap) (batch : list loc)
    (batch_size : Z) (concatenate : bool) (dev : string)
    (sample_keys additional_concat_keys : list string) : result (list out) :=
  concat_loop self h batch batch_size concatenate dev
    additional_concat_keys [] sample_keys.

(** [ReplayBuffer.sample_batch].  The method only reads the heap. *)
Definition sample_batch (self : t) (h : heap) (draw : Random.source)
    (batch_size : Z) (concatenate : bool) (dev : option string)
    (sample_method : sampler) (sample_keys : option (list string))
    (additional_concat_keys : option (list string))
    : result (Z * list out) :=
  let+ sampled := run_sampler draw sample_method (buffer self) batch_size in
  let batch := fst sampled in
  let batch_size := snd sampled in
  let dev := match dev with
             | None => buffer_device self
             | Some d => d
             end in
  let+ sample_keys :=
    match sample_keys with
    | None =>
        let+ b0 := list_getitem batch 0 in
        let+ tr0 := get_transition h b0 in
        Ok (keys tr0)
    | Some ks => Ok ks
    end in
  let additional_concat_keys :=
    match additional_concat_keys with
    | None => []
    | Some ks => ks
    end in
  let+ res := concatenate_batch self h batch batch_size concatenate dev
                sample_keys additional_concat_keys in
  Ok (batch_size, res).

(** [ReplayBuffer.__reduce__], for pickling: the arguments handed back
    to the class. *)
Definition __reduce__ (self : t) : Z * string * list string :=
  (buffer_size self, buffer_device self, main_attrs self).

(** Unpickling calls the class on the arguments that [__reduce__]
    returned. *)
Definition rebuild (args : Z * string * list string) : t :=
  let '(buffer_size, buffer_device, main_attributes) := args in
  init buffer_size buffer_device (Some main_attributes).

End ReplayBuffer.

(** ** class A3C: the synchronisation gate around [update] *)

Module A3C.

(** Modelled from the spec: the class [Switch] of
    [machin.utils.helper_classes] is not among the sources.  The spec's
    SyncGate is a single boolean latch, initially off ("sync enabled"),
    with idempotent [on]/[off] and a reader [get]. *)
Module Switch.
Definition t : Type := bool.
Definition init : t := false.
Definition on (_ : t) : t := true.
Definition off (_ : t) : t := false.
Definition get (s : t) : bool := s.
End Switch.

Inductive model : Type := Actor | Critic.

(** The calls a worker makes on its collaborators: the switch, the two
    gradient servers and the two networks. *)
Inductive event : Type :=
| GateOn
| GateOff
| Pull (m : model)
| Push (m : model)
| Forward (m : model).

(** The part of an [A3C] instance the gate protocol touches, with the log
    of the calls made so far. *)
Record t : Type := mk {
  _disable_sync : Switch.t;
  trace : list event
}.

(** The end of [A3C.__init__] (line 76). *)
Definition init : t := mk Switch.init [].

Definition emit (e : event) (self : t) : t :=
  mk (_disable_sync self) (trace self ++ [e]).

Definition gate_on (self : t) : t :=
  emit GateOn (mk (Switch.on (_disable_sync self)) (trace self)).

Definition gate_off (self : t) : t :=
  emit GateOff (mk (Switch.off (_disable_sync self)) (trace self)).


(** The guarded pull shared by [act], [eval_act] and [criticize]. *)
Definition maybe_pull (m : model) (pull : bool) (self : t) : t :=
  if pull && negb (Switch.get (_disable_sync self))
  then emit (Pull m) self
  else self.

(** [A3C.act]. *)
Definition act (pull : bool) (self : t) : t :=
  emit (Forward Actor) (maybe_pull Actor pull self).

(** [A3C.eval_act]. *)
Definition eval_act (pull : bool) (self : t) : t :=
  emit (Forward Actor) (maybe_pull Actor pull self).

(** [A3C.criticize]. *)
Definition criticize (pull : bool) (self : t) : t :=
  emit (Forward Critic) (maybe_pull Critic pull self).

(** The inherited [A2C.update] is not among the sources; it is a parameter
    of [update], given as a program over the methods of the instance that
    it may call (the arguments [update] hands over are part of it).  It may
    read the gate, and it may raise.  The gradient servers are outside the
    model: a pull or a push is the event of calling them; what they answer
    to the pushes of [update] is a parameter of [update]. *)
Inductive prog : Type :=
| Return
| Throw (e : exn)
| Act (pull : bool) (k : prog)
| EvalAct (pull : bool) (k : prog)
| Criticize (pull : bool) (k : prog)
| ReadGate (k : bool -> prog).

Fixpoint run (p : prog) (self : t) : t * result unit :=
  match p with
  | Return => (self, Ok tt)
  | Throw e => (self, Raise e)
  | Act pull k => run k (act pull self)
  | EvalAct pull k => run k (eval_act pull self)
  | Criticize pull k => run k (criticize pull self)
  | ReadGate k => run (k (Switch.get (_disable_sync self))) self
  end.

(** One step of the body, for statements about what holds while it runs. *)
Inductive step : prog * t -> prog * t -> Prop :=
| step_act pull k self : step (Act pull k, self) (k, act pull self)
| step_eval_act pull k self :
    step (EvalAct pull k, self) (k, eval_act pull self)
| step_criticize pull k self :
    step (Criticize pull k, self) (k, criticize pull self)
| step_read_gate k self :
    step (ReadGate k, self) (k (Switch.get (_disable_sync self)), self).

(** How the two gradient servers answer the pushes of one [update] call:
    each push returns, or raises (a network or server error). *)
Record answers : Type := mkAnswers {
  actor_push : result unit;
  critic_push : result unit
}.

Definition both_accept : answers := mkAnswers (Ok tt) (Ok tt).

(** [A3C.update], over the inherited update [body] and the servers'
    answers [srv].  The event [Push m] is the call of the server; it is
    logged whether the call then returns or raises. *)
Definition update (body : prog) (srv : answers) (self : t) : t * result unit :=
  let self1 := gate_on self in
  match run body self1 with
  | (self2, Raise e) => (self2, Raise e)
  | (self2, Ok _) =>
      let self3 := gate_off self2 in
      let self4 := emit (Push Actor) self3 in
      match actor_push srv with
      | Raise e => (self4, Raise e)
      | Ok _ =>
          let self5 := emit (Push Critic) self4 in
          match critic_push srv with
          | Raise e => (self5, Raise e)
          | Ok _ => (self5, Ok tt)
          end
      end
  end.

(** The events [update] adds to the log. *)
Definition new_events (before after : t) : list event :=
  drop (length (trace before)) (trace after).

Definition is_gate_off (e : event) : bool :=
  match e with GateOff => true | _ => false end.

Definition is_pull (e : event) : bool :=
  match e with Pull _ => true | _ => false end.

Definition is_push (m : model) (e : event) : bool :=
  match e, m with
  | Push Actor, Actor | Push Critic, Critic => true
  | _, _ => false
  end.

Definition is_forward (e : event) : bool :=
  match e with Forward _ => true | _ => false end.

(** Every [GateOn] of a log is followed by a later [GateOff]. *)
Fixpoint paired (tr : list event) : bool :=
  match tr with
  | [] => true
  | GateOn :: rest => existsb is_gate_off rest && paired rest
  | _ :: rest => paired rest
  end.

(** C8 as the spec words it, at one call: the toggles logged by the call
    are paired and the gate is not left closed. *)
Definition gate_released (body : prog) (srv : answers) (self : t) : Prop :=
  let self' := fst (update body srv self) in
  paired (new_events self self') = true /\
  Switch.get (_disable_sync self') = false.

(** C9 as the spec words it, at one call made with the gate open whose
    body completes: the gate is open again afterwards and the call has
    issued exactly one push for each model. *)
Definition pushes_once_per_model (body : prog) (srv : answers) (self : t)
    : Prop :=
  Switch.get (_disable_sync self) = false ->
  is_ok (snd (run body (gate_on self))) = true ->
  let self' := fst (update body srv self) in
  Switch.get (_disable_sync self') = false /\
  length (filter (fun ev => is_push Actor ev) (new_events self self')) = 1%nat /\
  length (filter (fun ev => is_push Critic ev) (new_events self self')) = 1%nat.

End A3C.

(** * Notions used in the statements *)

(** ** Device migration, as a function on heaps *)

Module Migration.
Import Transition TransitionOps.

(** [v.to(dev)] where [v] is a tensor; other values are left alone. *)
Definition to_dev (dev : string) (v : value) : value :=
  match v with
  | VTensor x => VTensor (mkTensor (shape x) dev (data x))
  | _ => v
  end.

Definition migrate_dict_entries (dev : string) (d : dict) : dict :=
  map (fun kv => (fst kv, to_dev dev (snd kv))) d.

(** A dictionary with every tensor moved; a [Transition] with its reward
    moved. *)
Definition migrate_obj (dev : string) (o : obj) : obj :=
  match o with
  | ODict d => ODict (migrate_dict_entries dev d)
  | OTransition tr => OTransition (set_reward (to_dev dev (reward tr)) tr)
  end.

(** The heap with the objects at [cs] moved to [dev]. *)
Definition migrate_cells (dev : string) (cs : list loc) (h : heap) : heap :=
  imap (fun c o => if bool_decide (c ∈ cs) then migrate_obj dev o else o) h.

Definition ref_loc (v : value) : list loc :=
  match v with VRef l => [l] | _ => [] end.

(** The heap cells of the record at [l]: its three dictionaries and the
    object itself. *)
Definition cells (tr : t) (l : loc) : list loc :=
  ref_loc (state tr) ++ ref_loc (action tr) ++ ref_loc (next_state tr) ++ [l].

Fixpoint nodup_keys (ks : list string) : bool :=
  match ks with
  | [] => true
  | k :: ks' => negb (mem k ks') && nodup_keys ks'
  end.

(** A dictionary of tensors (with the distinct keys of any [dict]). *)
Definition valid_dict (d : dict) : bool :=
  forallb is_tensor (dict_values d) && nodup_keys (dict_keys d).

Definition valid_dict_at (h : heap) (v : value) : bool :=
  match get_dict h v with
  | Ok d => valid_dict d
  | Raise _ => false
  end.

(** [l] is a [Transition] as its constructor leaves it ([_length] counts
    [_keys]; [state], [action] and [next_state] are dictionaries of
    tensors) and it has the keys required of it. *)
Definition valid_record (h : heap) (required_keys : list string) (l : loc)
    : bool :=
  match get_transition h l with
  | Ok tr =>
      has_keys tr required_keys
      && (_length tr =? Z.of_nat (length (_keys tr)))%Z
      && valid_dict_at h (state tr)
      && valid_dict_at h (action tr)
      && valid_dict_at h (next_state tr)
  | Raise _ => false
  end.

Definition on_device_value (dev : string) (v : value) : bool :=
  match v with
  | VTensor x => String.eqb (device x) dev
  | _ => true
  end.

(** Every tensor held directly by the object is on [dev]. *)
Definition on_device_obj (dev : string) (o : obj) : bool :=
  match o with
  | ODict d => forallb (on_device_value dev) (dict_values d)
  | OTransition tr => on_device_value dev (reward tr)
  end.

(** Every cell of the record at [l] holds its tensors on [dev]. *)
Definition record_on_device (h : heap) (dev : string) (l : loc) : bool :=
  match get_transition h l with
  | Ok tr =>
      forallb (fun c => match h !! c with
                        | Some o => on_device_obj dev o
                        | None => false
                        end) (cells tr l)
  | Raise _ => false
  end.

End Migration.

(** ** Sequences of appends *)

Module Runs.
Import Transition TransitionOps ReplayBuffer Migration.

(** [len(x)] and [x.keys()] of the record at [l]. *)
Definition len_at (h : heap) (l : loc) : Z :=
  match get_transition h l with
  | Ok tr => len tr
  | Raise _ => 0
  end.

Definition keys_at (h : heap) (l : loc) : list string :=
  match get_transition h l with
  | Ok tr => keys tr
  | Raise _ => []
  end.

(** A caller appending [recs] one after the other, keeping each result. *)
Fixpoint append_all (self : ReplayBuffer.t) (h : heap) (recs : list arg)
    (required_keys : list string) : heap * ReplayBuffer.t * list (result Z) :=
  match recs with
  | [] => (h, self, [])
  | a :: rest =>
      let '(h1, self1, r) := append self a required_keys h in
      let '(h2, self2, rs) := append_all self1 h1 rest required_keys in
      (h2, self2, r :: rs)
  end.

(** Heaps that agree on what [append] reads of a record. *)
Definition same_records (h h' : heap) : Prop :=
  forall l, (forall req, valid_record h' req l = valid_record h req l) /\
            len_at h' l = len_at h l /\ keys_at h' l = keys_at h l.

(** The records a store may hold or receive: well formed, with [n] fields. *)
Definition storable (h : heap) (req : list string) (n : Z) (l : loc) : Prop :=
  valid_record h req l = true /\ len_at h l = n.

(** All the records carry the same field-name set. *)
Definition schema_consistent (h : heap) (recs : list loc) : Prop :=
  exists ks, Forall (fun l => keys_at h l ≡ₚ ks) recs.

(** C1 as the spec words it: after the appends the store is full and holds
    the most recent [cap] records, oldest first, in index order. *)
Definition keeps_insertion_order (cap : Z) (dev : string) (h : heap)
    (recs : list loc) (req : list string) : Prop :=
  let out := append_all (ReplayBuffer.init cap dev None) h (map ArgObj recs) req in
  size (snd (fst out)) = cap /\
  buffer (snd (fst out)) = drop (length recs - Z.to_nat cap) recs.

(** C5 as the spec words it: a record whose field-name set differs from
    that of the first stored record is refused and the store is unchanged. *)
Definition field_set_mismatch_rejected (self : ReplayBuffer.t) (h : heap)
    (l : loc) (req : list string) : Prop :=
  forall b0, head (buffer self) = Some b0 ->
    ~ (keys_at h b0 ≡ₚ keys_at h l) ->
    let out := append self (ArgObj l) req h in
    is_ok (snd out) = false /\ snd (fst out) = self.

(** A store with a positive capacity, no more records than the capacity
    and the cursor inside it. *)
Definition within_capacity (self : ReplayBuffer.t) : Prop :=
  (0 < buffer_size self)%Z /\
  (size self <= buffer_size self)%Z /\
  (0 <= index self < buffer_size self)%Z.

(** The state of a ring of capacity [cap] that has received [seen], from
    empty: record [j] of the last [cap] sits in slot [j mod cap]. *)
Definition ring_inv (cap : nat) (self : ReplayBuffer.t) (seen : list loc) : Prop :=
  buffer_size self = Z.of_nat cap /\
  length (buffer self) = min (length seen) cap /\
  index self = Z.of_nat (if (length seen <? cap)%nat then 0 else length seen mod cap) /\
  (forall j, (length seen - cap <= j < length seen)%nat ->
             buffer self !! (j mod cap)%nat = seen !! j) /\
  buffer self ≡ₚ drop (length seen - cap) seen.

(** Every tensor of a result entry is on [dev]; plain lists are handed
    over as they are. *)
Definition out_on_device (dev : string) (o : out) : Prop :=
  match o with
  | OutDict d => Forall (fun kv => device (snd kv) = dev) d
  | OutDictList d => Forall (fun kv => Forall (fun x => device x = dev) (snd kv)) d
  | OutTensor x => device x = dev
  | OutList _ => True
  end.

End Runs.

(** ** The shape invariants of a record *)

Module Shapes.
Import Transition TransitionOps.

(** Every value is an array whose leading dimension is [b]. *)
Definition all_leading (b : nat) (vs : list value) : Prop :=
  Forall (fun v => exists x rest, v = VTensor x /\ shape x = b :: rest) vs.

(** C6 as the spec words it: the arrays under [state], [action] and
    [next_state] share one leading dimension [b]; the reward is a plain
    scalar, or an array whose leading dimension is [b]. *)
Definition shape_invariants (h : heap) (s a n r : value) : Prop :=
  exists ds da dn b,
    get_dict h s = Ok ds /\ get_dict h a = Ok da /\ get_dict h n = Ok dn /\
    all_leading b (dict_values ds ++ dict_values da ++ dict_values dn) /\
    ((exists x, r = VFloat x) \/
     (exists x rest, r = VTensor x /\ shape x = b :: rest)).

(** What [_check_input] lets through: with a float reward the shared
    leading dimension is 1; a tensor reward is two-dimensional. *)
Definition accepted (h : heap) (s a n r : value) : Prop :=
  exists ds da dn b,
    get_dict h s = Ok ds /\ get_dict h a = Ok da /\ get_dict h n = Ok dn /\
    all_leading b (dict_values ds ++ dict_values da ++ dict_values dn) /\
    ((exists x, r = VFloat x) /\ b = 1%nat \/
     (exists x d2, r = VTensor x /\ shape x = [b; d2])).

(** The constructor returns an object. *)
Definition constructs (h : heap) (s a n r tm : value) (kwargs : dict) : Prop :=
  is_ok (snd (TransitionOps.init s a n r tm kwargs h)) = true.

Definition validates_shape_invariants (h : heap) (s a n r tm : value)
    (kwargs : dict) : Prop :=
  constructs h s a n r tm kwargs <-> shape_invariants h s a n r.

End Shapes.

(** ** Concrete records and stores *)

Module Examples.
Import Transition ReplayBuffer Runs.

Definition zeros (s : list nat) (dev : string) : value :=
  VTensor (mkTensor s dev (repeat 0%Q (Torch.numel s))).

(** One interaction step with [batch] rows, as a producer builds it:
    three fresh dictionaries and the [Transition] over them. *)
Definition new_step (dev : string) (batch : nat) (r : value) (kwargs : dict)
    : M loc :=
  let* s := alloc (ODict [("state", zeros [batch; 4%nat] dev)]) in
  let* a := alloc (ODict [("action", zeros [batch; 1%nat] dev)]) in
  let* n := alloc (ODict [("state", zeros [batch; 4%nat] dev)]) in
  TransitionOps.init (VRef s) (VRef a) (VRef n) r (VBool false) kwargs.

Fixpoint build (ms : list (M loc)) (h : heap) : heap :=
  match ms with
  | [] => h
  | m :: ms' => build ms' (fst (m h))
  end.

(** Six single steps R1..R6 on ["cuda:0"], at locations 3, 7, 11, 15, 19
    and 23. *)
Definition six_steps : heap :=
  build (map (fun q => new_step "cuda:0" 1 (VFloat q) [])
             [1%Q; 2%Q; 3%Q; 4%Q; 5%Q; 6%Q]) [].

Definition R1 : loc := 3%nat.
Definition R2 : loc := 7%nat.
Definition R3 : loc := 11%nat.
Definition R4 : loc := 15%nat.
Definition R5 : loc := 19%nat.
Definition R6 : loc := 23%nat.

(** A plain step (at 3), one with an extra field [log_prob] (at 7) and one
    with an extra field [value] (at 11). *)
Definition mixed_steps : heap :=
  build [new_step "cuda:0" 1 (VFloat 1%Q) [];
         new_step "cuda:0" 1 (VFloat 2%Q) [("log_prob", VFloat 0%Q)];
         new_step "cuda:0" 1 (VFloat 3%Q) [("value", VFloat 0%Q)]] [].

Definition plain_step : loc := 3%nat.
Definition log_prob_step : loc := 7%nat.
Definition value_step : loc := 11%nat.

(** A store of capacity 3 on ["cpu"] after one append of [first]. *)
Definition store_with (first : loc) : heap * ReplayBuffer.t :=
  fst (append (ReplayBuffer.init 3 "cpu" None) (ArgObj first)
              default_required_keys mixed_steps).

(** Dictionaries of two-row arrays, and a one-dimensional reward of two
    elements. *)
Definition two_rows : heap :=
  [ODict [("state", zeros [2; 4]%nat "cpu")];
   ODict [("action", zeros [2; 1]%nat "cpu")];
   ODict [("state", zeros [2; 4]%nat "cpu")]].

Definition flat_reward : value := zeros [2%nat] "cpu".

(** A pre-batched record of two rows with a [2, 1] reward (at 3), and the
    store holding it. *)
Definition batched_step : heap :=
  build [new_step "cpu" 2 (zeros [2; 1]%nat "cpu") []] [].

Definition batched_store : heap * ReplayBuffer.t :=
  fst (append (ReplayBuffer.init 10 "cpu" None) (ArgObj 3%nat)
              default_required_keys batched_step).

(** A store of capacity 2 that has seen R1, R2, R3. *)
Definition used_store : heap * ReplayBuffer.t :=
  fst (append_all (ReplayBuffer.init 2 "cpu" None) six_steps
                  (map ArgObj [R1; R2; R3]) default_required_keys).

(** A store holding three records whose capacity has been lowered to 2. *)
Definition oversized_store : ReplayBuffer.t :=
  ReplayBuffer.mk 2 "cpu" [R1; R2; R3] 0 default_main_attrs.

(** A record on ["cpu"] whose [state] dictionary has been given a string
    between two arrays after construction. *)
Definition tampered : heap :=
  [ODict [("state", zeros [1; 4]%nat "cpu"); ("note", VStr "x");
          ("depth", zeros [1; 4]%nat "cpu")];
   ODict [("action", zeros [1; 1]%nat "cpu")];
   ODict [("state", zeros [1; 4]%nat "cpu")];
   OTransition (Transition.mk 5 TransitionOps.base_keys (VRef 0%nat)
                  (VRef 1%nat) (VRef 2%nat) (VFloat 1%Q) (VBool false) [])].

(** Dictionaries for a record whose state is a zero-dimensional array. *)
Definition scalar_state : heap :=
  [ODict [("state", zeros [] "cpu")]; ODict []; ODict []].


(** An entropy source whose [i]-th draw is [i]. *)
Definition count_up : Random.source := fun i => i.

End Examples.

(** * Facts *)

(** ** The gate protocol *)

Module A3CFacts.
Import A3C.

Lemma maybe_pull_gate m pull self :
  _disable_sync (maybe_pull m pull self) = _disable_sync self.
Proof. unfold maybe_pull. destruct (pull && _); reflexivity. Qed.

Lemma maybe_pull_closed m pull self :
  _disable_sync self = true -> maybe_pull m pull self = self.
Proof. intros H. unfold maybe_pull, Switch.get. rewrite H, andb_false_r. reflexivity. Qed.

Lemma step_gate c c' :
  step c c' -> _disable_sync (snd c') = _disable_sync (snd c).
Proof.
  destruct 1; cbn; unfold act, eval_act, criticize; cbn;
    rewrite ?maybe_pull_gate; reflexivity.
Qed.

Lemma step_trace_closed c c' :
  step c c' -> _disable_sync (snd c) = true ->
  exists tr, trace (snd c') = trace (snd c) ++ tr /\ forallb is_forward tr = true.
Proof.
  destruct 1; cbn; intros Hc; unfold act, eval_act, criticize;
    rewrite ?(maybe_pull_closed _ _ _ Hc); cbn;
    try (eexists [_]; split; [reflexivity | reflexivity]).
  exists []. rewrite app_nil_r. split; reflexivity.
Qed.

(** While the gate is closed, whatever the body does keeps it closed and
    logs forward passes only. *)
Lemma steps_closed c c' :
  rtc step c c' -> _disable_sync (snd c) = true ->
  _disable_sync (snd c') = true /\
  exists tr, trace (snd c') = trace (snd c) ++ tr /\ forallb is_forward tr = true.
Proof.
  induction 1 as [c | c c1 c2 Hs _ IH]; intros Hc.
  - split; [assumption |]. exists []. rewrite app_nil_r. split; reflexivity.
  - pose proof (step_gate _ _ Hs) as Hg.
    destruct (step_trace_closed _ _ Hs Hc) as (tr1 & E1 & F1).
    destruct IH as (Hc2 & tr2 & E2 & F2); [congruence |].
    split; [assumption |].
    exists (tr1 ++ tr2). rewrite E2, E1, <- app_assoc. split; [reflexivity |].
    rewrite forallb_app, F1, F2. reflexivity.
Qed.

(** [run] follows the step relation to the end of the body. *)
Lemma run_steps p : forall self self' r,
  run p self = (self', r) ->
  rtc step (p, self) (match r with Ok _ => Return | Raise e => Throw e end, self').
Proof.
  induction p as [| e | pull k IH | pull k IH | pull k IH | k IH];
    intros self self' r Hr; cbn in Hr.
  - inversion Hr; subst. apply rtc_refl.
  - inversion Hr; subst. apply rtc_refl.
  - eapply rtc_l; [apply step_act | apply IH, Hr].
  - eapply rtc_l; [apply step_eval_act | apply IH, Hr].
  - eapply rtc_l; [apply step_criticize | apply IH, Hr].
  - eapply rtc_l; [apply step_read_gate | apply IH, Hr].
Qed.

Lemma run_closed p self self' r :
  run p self = (self', r) -> _disable_sync self = true ->
  _disable_sync self' = true /\
  exists tr, trace self' = trace self ++ tr /\ forallb is_forward tr = true.
Proof.
  intros Hr Hc. apply (steps_closed _ _ (run_steps _ _ _ _ Hr) Hc).
Qed.

Lemma new_events_app self self' tr :
  trace self' = trace self ++ tr -> new_events self self' = tr.
Proof. intros E. unfold new_events. rewrite E. apply drop_app_length. Qed.

Lemma paired_forward tr rest :
  forallb is_forward tr = true -> paired (tr ++ rest) = paired rest.
Proof.
  induction tr as [| e tr IH]; cbn; [reflexivity |].
  destruct e; cbn; try discriminate; intros H; apply IH, H.
Qed.

Lemma existsb_off_app tr rest :
  existsb is_gate_off (tr ++ GateOff :: rest) = true.
Proof. rewrite existsb_app. cbn. apply orb_true_r. Qed.

(** What [update] returns when the body completes: the gate is reopened,
    the actor push is issued, and the critic push is issued when the actor
    push returned. *)
Lemma update_completes body srv self self2 :
  run body (gate_on self) = (self2, Ok tt) ->
  exists tr, forallb is_forward tr = true /\
    update body srv self =
      (mk false (trace self ++ GateOn :: tr ++ GateOff :: Push Actor ::
                   (if is_ok (actor_push srv) then [Push Critic] else [])),
       let+ _ := actor_push srv in critic_push srv).
Proof.
  intros Hr. destruct (run_closed _ _ _ _ Hr eq_refl) as (_ & tr & E & F).
  exists tr. split; [assumption |].
  unfold update. rewrite Hr.
  destruct (actor_push srv) as [[] | ea]; [destruct (critic_push srv) as [[] | ec] |];
    unfold emit, gate_off; cbn; rewrite E; cbn;
    do 2 f_equal; rewrite <- !app_assoc; reflexivity.
Qed.

Lemma only_forwards tr (f : event -> bool) :
  forallb is_forward tr = true ->
  (forall ev, is_forward ev = true -> f ev = false) ->
  existsb f tr = false.
Proof.
  intros F Hf. induction tr as [| ev tr IH]; cbn; [reflexivity |].
  cbn in F. apply andb_prop in F as [F1 F2].
  rewrite (Hf _ F1), (IH F2). reflexivity.
Qed.

Lemma no_push_among_forwards tr m rest :
  forallb is_forward tr = true ->
  length (filter (fun ev => is_push m ev) (tr ++ rest)) =
  length (filter (fun ev => is_push m ev) rest).
Proof.
  intros F. induction tr as [| ev tr IH]; [reflexivity |].
  cbn in F. apply andb_prop in F as [F1 F2].
  destruct ev as [| | m' | m' | m']; try discriminate F1.
  cbn [app]. rewrite filter_cons_False; [apply IH, F2 |].
  destruct m; cbn; auto.
Qed.

(** C8, as stated, fails: when the inherited update raises, [update]
    stops before [off()], so the toggle stays unpaired and the gate stays
    closed. *)
Lemma update_raise_leaves_gate_closed :
  ~ gate_released (Throw RuntimeError) both_accept init.
Proof.
  unfold gate_released. cbn. intros [H _]. discriminate H.
Qed.

(** C8, amended: on every path where the inherited update completes, the
    [on()] of [update] is followed by its [off()] and the gate is open when
    [update] returns, or raises because a push failed; when the inherited
    update raises, [update] raises the same error at once, with the gate
    still closed and nothing pushed. *)
Theorem update_gate_paired_on_completion (body : prog) (srv : answers) (self : t) :
  match run body (gate_on self) with
  | (_, Ok _) =>
      gate_released body srv self /\
      snd (update body srv self) = (let+ _ := actor_push srv in critic_push srv)
  | (self2, Raise e) =>
      update body srv self = (self2, Raise e) /\
      Switch.get (_disable_sync self2) = true /\
      existsb is_gate_off (new_events self self2) = false /\
      existsb (fun ev => is_push Actor ev || is_push Critic ev)
              (new_events self self2) = false
  end.
Proof.
  destruct (run body (gate_on self)) as [self2 [[] | e]] eqn:Hr.
  - destruct (update_completes _ srv _ _ Hr) as (tr & F & E).
    unfold gate_released. rewrite E. cbn [fst snd _disable_sync Switch.get].
    split; [| reflexivity]. split; [| reflexivity].
    rewrite (new_events_app self _
               (GateOn :: tr ++ GateOff :: Push Actor ::
                  (if is_ok (actor_push srv) then [Push Critic] else [])))
      by reflexivity.
    cbn [paired]. rewrite existsb_off_app. cbn [andb].
    rewrite (paired_forward tr _ F). destruct (is_ok (actor_push srv)); reflexivity.
  - destruct (run_closed _ _ _ _ Hr eq_refl) as (Hc & tr & E & F).
    split; [unfold update; rewrite Hr; reflexivity |].
    split; [exact Hc |].
    assert (En : new_events self self2 = GateOn :: tr).
    { apply new_events_app. rewrite E. cbn. rewrite <- app_assoc. reflexivity. }
    rewrite En. cbn.
    split; apply (only_forwards tr _ F); intros [] Hev; try discriminate Hev;
      reflexivity.
Qed.

(** C9, as stated, fails: the two pushes are issued one after the other
    without any handling in between, so when the actor's server raises,
    [update] raises before the critic is pushed; the call has issued no
    push for the critic, although the update body completed. *)
Lemma failed_actor_push_skips_critic_push :
  ~ pushes_once_per_model Return (mkAnswers (Raise RuntimeError) (Ok tt)) init.
Proof.
  unfold pushes_once_per_model. intros H.
  destruct (H eq_refl eq_refl) as (_ & _ & C). vm_compute in C. discriminate C.
Qed.

(** C9, amended: when [update] is called and the inherited update
    completes, every state it passes through has the gate closed and has
    logged no pull since [update] began (only forward passes); [update]
    then reopens the gate and pushes the actor once; it pushes the critic
    once exactly when the actor push returned, and it returns what the
    pushes answer: a raising push makes [update] raise with the gate
    already open, and a raising actor push leaves the critic unpushed.  No
    pull is issued by the whole call. *)
Theorem update_closes_gate_then_pushes (body : prog) (srv : answers)
    (self self2 : t) :
  Switch.get (_disable_sync self) = false ->
  run body (gate_on self) = (self2, Ok tt) ->
  (forall p s, rtc step (body, gate_on self) (p, s) ->
     Switch.get (_disable_sync s) = true /\
     exists tr, trace s = trace self ++ GateOn :: tr /\
                forallb is_forward tr = true) /\
  exists tr,
    forallb is_forward tr = true /\
    update body srv self =
      (mk false (trace self ++ GateOn :: tr ++ GateOff :: Push Actor ::
                   (if is_ok (actor_push srv) then [Push Critic] else [])),
       let+ _ := actor_push srv in critic_push srv) /\
    Switch.get (_disable_sync (fst (update body srv self))) = false /\
    length (filter (fun ev => is_push Actor ev)
              (new_events self (fst (update body srv self)))) = 1%nat /\
    length (filter (fun ev => is_push Critic ev)
              (new_events self (fst (update body srv self)))) =
      (if is_ok (actor_push srv) then 1 else 0)%nat /\
    existsb is_pull (new_events self (fst (update body srv self))) = false.
Proof.
  intros _ Hr. split.
  - intros p s Hs.
    destruct (steps_closed _ _ Hs eq_refl) as (Hc & tr & E & F).
    split; [exact Hc |]. exists tr. split; [| exact F].
    cbn in E. rewrite E. cbn. rewrite <- app_assoc. reflexivity.
  - destruct (update_completes _ srv _ _ Hr) as (tr & F & E).
    exists tr. split; [exact F |]. split; [exact E |].
    rewrite E. cbn [fst _disable_sync Switch.get]. split; [reflexivity |].
    rewrite (new_events_app self _
               (GateOn :: tr ++ GateOff :: Push Actor ::
                  (if is_ok (actor_push srv) then [Push Critic] else [])))
      by reflexivity.
    split; [| split].
    + rewrite filter_cons_False by (cbn; auto).
      rewrite (no_push_among_forwards tr Actor _ F).
      destruct (is_ok (actor_push srv)); reflexivity.
    + rewrite filter_cons_False by (cbn; auto).
      rewrite (no_push_among_forwards tr Critic _ F).
      destruct (is_ok (actor_push srv)); reflexivity.
    + cbn [existsb is_pull orb]. rewrite existsb_app.
      rewrite (only_forwards tr is_pull F)
        by (intros [] Hev; try discriminate Hev; reflexivity).
      destruct (is_ok (actor_push srv)); reflexivity.
Qed.

(** A body that acts and criticises with [pull=True], run from a fresh
    instance with servers that accept both pushes. *)
Lemma update_closes_gate_then_pushes_witness :
  exists tr,
    update (Act true (Criticize true Return)) both_accept init =
      (mk false (GateOn :: tr ++ [GateOff; Push Actor; Push Critic]), Ok tt).
Proof.
  destruct (update_closes_gate_then_pushes
              (Act true (Criticize true Return)) both_accept init
              (mk true [GateOn; Forward Actor; Forward Critic])
              eq_refl eq_refl) as (_ & tr & _ & E & _).
  exists tr. exact E.
Defined.

End A3CFacts.

(** ** Device migration *)

Module HeapFacts.
Import Transition TransitionOps Migration.

Lemma mem_spec k l : mem k l = true <-> In k l.
Proof.
  induction l as [| k' l IH]; cbn; [easy |].
  rewrite orb_true_iff, IH, String.eqb_eq. intuition congruence.
Qed.

Lemma dict_set_fresh d1 k v v' d2 :
  mem k (dict_keys d1) = false ->
  dict_set (d1 ++ (k, v) :: d2) k v' = d1 ++ (k, v') :: d2.
Proof.
  induction d1 as [| [k1 v1] d1 IH]; cbn; intros H.
  - rewrite String.eqb_refl. reflexivity.
  - apply orb_false_iff in H as [H1 H2]. rewrite H1, (IH H2). reflexivity.
Qed.

Lemma to_dev_idem dev v : to_dev dev (to_dev dev v) = to_dev dev v.
Proof. destruct v; reflexivity. Qed.

Lemma value_to_tensor dev v : is_tensor v = true -> value_to dev v = Ok (to_dev dev v).
Proof. destruct v; cbn; intros H; try discriminate H; reflexivity. Qed.

Lemma migrate_items_spec dev l : forall items done h,
  h !! l = Some (ODict (migrate_dict_entries dev done ++ items)) ->
  forallb is_tensor (dict_values items) = true ->
  nodup_keys (dict_keys (done ++ items)) = true ->
  migrate_items l dev items h =
    (<[l := ODict (migrate_dict_entries dev (done ++ items))]> h, Ok tt).
Proof.
  induction items as [| [k v] items IH]; intros done h Hl Ht Hn.
  - rewrite app_nil_r in *. rewrite list_insert_id by exact Hl. reflexivity.
  - cbn in Ht. apply andb_prop in Ht as [Hv Ht].
    cbn [migrate_items]. unfold bind, lift, read, store.
    rewrite (value_to_tensor _ _ Hv). cbn [get_dict]. rewrite Hl.
    assert (Hk : mem k (dict_keys (migrate_dict_entries dev done)) = false).
    { clear -Hn. unfold dict_keys, migrate_dict_entries. rewrite map_map. cbn.
      induction done as [| [k1 v1] done IH]; cbn in *; [reflexivity |].
      apply andb_prop in Hn as [H1 H2].
      unfold dict_keys in *. rewrite map_app in H1. cbn in H1.
      apply orb_false_iff. split.
      - destruct (String.eqb k k1) eqn:E; [| reflexivity].
        apply String.eqb_eq in E. subst k1.
        apply negb_true_iff in H1.
        assert (mem k (map fst done ++ k :: map fst items) = true) as C.
        { apply mem_spec, in_or_app. right. left. reflexivity. }
        congruence.
      - apply IH. exact H2. }
    rewrite (dict_set_fresh _ _ _ _ _ Hk).
    specialize (IH (done ++ [(k, v)]) (<[l:=ODict (migrate_dict_entries dev done ++ (k, to_dev dev v) :: items)]> h)).
    rewrite <- !app_assoc in IH. cbn in IH.
    rewrite IH.
    + rewrite list_insert_insert_eq. reflexivity.
    + rewrite list_lookup_insert_eq by (eapply lookup_lt_Some; eauto).
      unfold migrate_dict_entries. rewrite map_app. cbn. rewrite <- app_assoc. reflexivity.
    + exact Ht.
    + exact Hn.
Qed.

Lemma valid_dict_migrate dev d :
  valid_dict (migrate_dict_entries dev d) = valid_dict d.
Proof.
  unfold valid_dict, dict_values, dict_keys, migrate_dict_entries.
  rewrite !map_map. cbn. f_equal.
  induction d as [| [k v] d IH]; cbn; [reflexivity |].
  rewrite IH. destruct v; reflexivity.
Qed.

Lemma migrate_entries_idem dev d :
  migrate_dict_entries dev (migrate_dict_entries dev d) = migrate_dict_entries dev d.
Proof.
  unfold migrate_dict_entries. rewrite map_map. apply map_ext.
  intros [k v]. cbn. rewrite to_dev_idem. reflexivity.
Qed.

Lemma migrate_obj_idem dev o : migrate_obj dev (migrate_obj dev o) = migrate_obj dev o.
Proof.
  destruct o as [d | tr]; cbn.
  - rewrite migrate_entries_idem. reflexivity.
  - destruct tr; cbn. rewrite to_dev_idem. reflexivity.
Qed.

Lemma migrate_dict_spec dev l d (h : heap) :
  h !! l = Some (ODict d) -> valid_dict d = true ->
  migrate_dict (VRef l) dev h = (<[l := ODict (migrate_dict_entries dev d)]> h, Ok tt).
Proof.
  intros Hl Hv. apply andb_prop in Hv as [Ht Hn].
  unfold migrate_dict, bind, read. cbn [get_dict]. rewrite Hl.
  apply (migrate_items_spec dev l d [] h); assumption.
Qed.

Lemma lookup_migrate_cells dev cs (h : heap) c :
  migrate_cells dev cs h !! c =
  (fun o => if bool_decide (c ∈ cs) then migrate_obj dev o else o) <$> (h !! c).
Proof. unfold migrate_cells. apply list_lookup_imap. Qed.

Lemma length_migrate_cells dev cs (h : heap) :
  length (migrate_cells dev cs h) = length h.
Proof. unfold migrate_cells. apply length_imap. Qed.

Lemma migrate_cells_ext dev cs cs' (h : heap) :
  (forall c, c ∈ cs <-> c ∈ cs') ->
  migrate_cells dev cs h = migrate_cells dev cs' h.
Proof.
  intros E. apply list_eq. intros c. rewrite !lookup_migrate_cells.
  destruct (h !! c) as [o |]; [cbn | reflexivity].
  rewrite (bool_decide_ext _ _ (E c)). reflexivity.
Qed.

Lemma migrate_cells_nil dev (h : heap) : migrate_cells dev [] h = h.
Proof.
  apply list_eq. intros c. rewrite lookup_migrate_cells.
  destruct (h !! c); cbn; [| reflexivity].
  rewrite bool_decide_eq_false_2; [reflexivity | apply not_elem_of_nil].
Qed.

Lemma insert_migrate_cells dev cs (h : heap) c o :
  h !! c = Some o ->
  <[c := migrate_obj dev o]> (migrate_cells dev cs h) = migrate_cells dev (c :: cs) h.
Proof.
  intros Hc. apply list_eq. intros c'. rewrite lookup_migrate_cells.
  destruct (decide (c' = c)) as [-> |Hne].
  - rewrite list_lookup_insert_eq
      by (rewrite length_migrate_cells; eapply lookup_lt_Some; eauto).
    rewrite Hc. cbn. rewrite bool_decide_eq_true_2 by (apply elem_of_cons; left; reflexivity).
    reflexivity.
  - rewrite list_lookup_insert_ne by congruence.
    rewrite lookup_migrate_cells.
    destruct (h !! c') as [o' |]; [cbn | reflexivity].
    rewrite (bool_decide_ext (c' ∈ c :: cs) (c' ∈ cs)); [reflexivity |].
    rewrite elem_of_cons. intuition congruence.
Qed.

Lemma migrate_dict_cells dev cs (h : heap) lc d :
  h !! lc = Some (ODict d) -> valid_dict d = true ->
  migrate_dict (VRef lc) dev (migrate_cells dev cs h) =
    (migrate_cells dev (lc :: cs) h, Ok tt).
Proof.
  intros Hl Hv.
  assert (Hm : exists d', migrate_cells dev cs h !! lc = Some (ODict d') /\
                          valid_dict d' = true /\
                          migrate_dict_entries dev d' = migrate_dict_entries dev d).
  { rewrite lookup_migrate_cells, Hl. cbn.
    destruct (bool_decide (lc ∈ cs)); cbn.
    - eexists. split; [reflexivity |]. rewrite valid_dict_migrate.
      split; [assumption | apply migrate_entries_idem].
    - eexists. split; [reflexivity |]. split; [assumption | reflexivity]. }
  destruct Hm as (d' & Hl' & Hv' & E).
  rewrite (migrate_dict_spec dev lc d' _ Hl' Hv'), E.
  rewrite <- (insert_migrate_cells dev cs h lc (ODict d) Hl). reflexivity.
Qed.

Lemma valid_dict_at_inv (h : heap) v :
  valid_dict_at h v = true ->
  exists lc d, v = VRef lc /\ h !! lc = Some (ODict d) /\ valid_dict d = true.
Proof.
  unfold valid_dict_at, get_dict. destruct v as [| | | | | | lc]; try discriminate.
  destruct (h !! lc) as [[d | tr] |] eqn:E; try discriminate.
  intros Hv. exists lc, d. auto.
Qed.

Lemma get_transition_inv (h : heap) l tr :
  get_transition h l = Ok tr -> h !! l = Some (OTransition tr).
Proof.
  unfold get_transition. destruct (h !! l) as [[d | tr'] |]; try discriminate.
  intros [= ->]. reflexivity.
Qed.

(** [Transition.to] on a record with well-formed dictionaries: exactly the
    cells of the record are migrated. *)
Lemma to_spec dev (h : heap) req l tr :
  get_transition h l = Ok tr -> valid_record h req l = true ->
  to l dev h = (migrate_cells dev (cells tr l) h, Ok tt).
Proof.
  intros Ht Hv. unfold valid_record in Hv. rewrite Ht in Hv.
  repeat (apply andb_prop in Hv as [Hv ?]).
  destruct (valid_dict_at_inv _ _ H1) as (ls & ds & Es & Hs & Vs).
  destruct (valid_dict_at_inv _ _ H0) as (la & da & Ea & Ha & Va).
  destruct (valid_dict_at_inv _ _ H) as (ln & dn & En & Hn & Vn).
  pose proof (get_transition_inv _ _ _ Ht) as Hl.
  unfold to, bind, read. rewrite Ht, Es, Ea, En.
  rewrite <- (migrate_cells_nil dev h) at 1.
  rewrite (migrate_dict_cells dev [] h ls ds Hs Vs).
  rewrite (migrate_dict_cells dev [ls] h la da Ha Va).
  rewrite (migrate_dict_cells dev [la; ls] h ln dn Hn Vn).
  assert (Hnot : ~ l ∈ [ln; la; ls]).
  { rewrite !elem_of_cons, elem_of_nil. intros [-> | [-> | [-> | []]]]; congruence. }
  unfold get_transition at 1. rewrite lookup_migrate_cells, Hl. cbn.
  rewrite bool_decide_eq_false_2 by exact Hnot.
  assert (Ecells : forall c, c ∈ l :: [ln; la; ls] <-> c ∈ cells tr l).
  { intros c. unfold cells. rewrite Es, Ea, En. cbn.
    rewrite !elem_of_cons, !elem_of_nil. intuition. }
  rewrite <- (migrate_cells_ext dev _ _ h Ecells).
  rewrite <- (insert_migrate_cells dev [ln; la; ls] h l _ Hl). cbn.
  destruct (reward tr) eqn:Er; cbn; unfold ret, lift, store; cbn;
    try (rewrite list_insert_id; [reflexivity |];
         rewrite lookup_migrate_cells, Hl; cbn;
         rewrite bool_decide_eq_false_2 by exact Hnot;
         destruct tr; cbn in *; subst; reflexivity).
  reflexivity.
Qed.

Lemma on_device_to_dev dev v : on_device_value dev (to_dev dev v) = true.
Proof. destruct v; cbn; try reflexivity. apply String.eqb_refl. Qed.

Lemma to_dev_on_device dev v : on_device_value dev v = true <-> to_dev dev v = v.
Proof.
  destruct v as [| | | | | x |]; cbn; try tauto.
  rewrite String.eqb_eq. destruct x as [s d q]; cbn. split.
  - intros ->. reflexivity.
  - intros [= ->]. reflexivity.
Qed.

Lemma on_device_migrate dev o : on_device_obj dev (migrate_obj dev o) = true.
Proof.
  destruct o as [d | tr]; cbn.
  - unfold dict_values, migrate_dict_entries. rewrite map_map. cbn.
    induction d as [| [k v] d IH]; cbn; [reflexivity |].
    rewrite on_device_to_dev. exact IH.
  - destruct tr; cbn. apply on_device_to_dev.
Qed.

Lemma migrate_on_device dev o : on_device_obj dev o = true <-> migrate_obj dev o = o.
Proof.
  destruct o as [d | tr]; cbn.
  - induction d as [| [k v] d IH]; cbn; [tauto |].
    rewrite andb_true_iff, to_dev_on_device. split.
    + intros [Hv Hd]. apply IH in Hd. injection Hd as Hd.
      rewrite Hv. unfold migrate_dict_entries in Hd. rewrite Hd. reflexivity.
    + intros [= Hv Hd]. split; [assumption |]. apply IH.
      unfold migrate_dict_entries. rewrite Hd. reflexivity.
  - rewrite to_dev_on_device. destruct tr; cbn. split.
    + intros ->. reflexivity.
    + intros [= ->]. reflexivity.
Qed.

Lemma migrate_cells_outside dev cs (h : heap) c :
  c ∉ cs -> migrate_cells dev cs h !! c = h !! c.
Proof.
  intros Hc. rewrite lookup_migrate_cells. destruct (h !! c); [cbn | reflexivity].
  rewrite bool_decide_eq_false_2 by exact Hc. reflexivity.
Qed.

Lemma migrate_cells_on_device dev cs (h : heap) c o :
  h !! c = Some o -> on_device_obj dev o = true ->
  migrate_cells dev cs h !! c = Some o.
Proof.
  intros Hc Hd. rewrite lookup_migrate_cells, Hc. cbn.
  destruct (bool_decide (c ∈ cs)); [| reflexivity].
  apply migrate_on_device in Hd. rewrite Hd. reflexivity.
Qed.

Lemma migrate_cells_inside dev cs (h : heap) c o :
  c ∈ cs -> h !! c = Some o ->
  migrate_cells dev cs h !! c = Some (migrate_obj dev o).
Proof.
  intros Hc Ho. rewrite lookup_migrate_cells, Ho. cbn.
  rewrite bool_decide_eq_true_2 by exact Hc. reflexivity.
Qed.

End HeapFacts.

(** ** The constructor of [Transition] *)

Module TransitionFacts.
Import Transition TransitionOps Shapes Examples.

Lemma any_not_tensor_app vs1 vs2 :
  any_not_tensor (vs1 ++ vs2) = any_not_tensor vs1 || any_not_tensor vs2.
Proof. unfold any_not_tensor. apply existsb_app. Qed.

Lemma leading_checks (b : nat) : forall vs,
  (exists shapes firsts,
     mapR shape_of vs = Ok shapes /\ mapR leading shapes = Ok firsts /\
     forallb (fun d => (d =? Z.of_nat b)%Z) firsts = true)
  <-> all_leading b vs.
Proof.
  induction vs as [| v vs IH].
  - split; [constructor |]. intros _. exists [], []. repeat split.
  - split.
    + intros (shapes & firsts & H1 & H2 & H3). cbn in H1.
      destruct v as [| | | | | x |]; try discriminate H1. cbn in H1.
      destruct (mapR shape_of vs) as [ss |] eqn:Es; [| discriminate H1].
      cbn in H1. injection H1 as <-. cbn in H2.
      destruct (shape x) as [| d rest] eqn:Ex; [discriminate H2 |]. cbn in H2.
      destruct (mapR leading ss) as [fs |] eqn:Ef; [| discriminate H2].
      cbn in H2. injection H2 as <-. cbn in H3.
      apply andb_prop in H3 as [Hd Hfs].
      apply Z.eqb_eq, Nat2Z.inj in Hd. subst d.
      constructor; [exists x, rest; auto |].
      apply IH. exists ss, fs. auto.
    + intros H. apply Forall_cons in H as [(x & rest & -> & Ex) Hvs].
      apply IH in Hvs as (ss & fs & H1 & H2 & H3).
      exists (shape x :: ss), (Z.of_nat b :: fs). cbn. rewrite H1. cbn.
      rewrite Ex. cbn. rewrite H2. cbn. rewrite Z.eqb_refl, H3. auto.
Qed.

Lemma all_leading_tensors b vs : all_leading b vs -> any_not_tensor vs = false.
Proof.
  induction 1 as [| v vs (x & rest & -> & _) _ IH]; [reflexivity |].
  cbn. exact IH.
Qed.

Lemma tensors_have_shapes vs :
  any_not_tensor vs = false -> exists shapes, mapR shape_of vs = Ok shapes.
Proof.
  induction vs as [| v vs IH]; cbn; [eexists; reflexivity |].
  intros H. apply orb_false_iff in H as [Hv Hvs].
  destruct v; try discriminate Hv. destruct (IH Hvs) as (ss & E).
  cbn. rewrite E. eexists. reflexivity.
Qed.

Lemma check_input_accepts (h : heap) tr :
  _check_input h tr = Ok tt <->
  accepted h (state tr) (action tr) (next_state tr) (reward tr).
Proof.
  unfold _check_input, values_of, accepted. split.
  - destruct (get_dict h (state tr)) as [ds |] eqn:Es; [cbn | discriminate].
    destruct (any_not_tensor (dict_values ds)) eqn:As; [discriminate |].
    destruct (get_dict h (action tr)) as [da |] eqn:Ea; [cbn | discriminate].
    destruct (any_not_tensor (dict_values da)) eqn:Aa; [discriminate |].
    destruct (get_dict h (next_state tr)) as [dn |] eqn:En; [cbn | discriminate].
    destruct (any_not_tensor (dict_values dn)) eqn:An; [discriminate |].
    destruct (mapR shape_of _) as [shapes |] eqn:Esh; [cbn | discriminate].
    destruct (reward_batch_size (reward tr)) as [bz |] eqn:Er; [cbn | discriminate].
    destruct (mapR leading shapes) as [firsts |] eqn:Ef; [cbn | discriminate].
    destruct (forallb _ firsts) eqn:Eall; [| discriminate]. intros _.
    assert (Hb : exists b : nat, bz = Z.of_nat b /\
              ((exists x, reward tr = VFloat x) /\ b = 1%nat \/
               (exists x d2, reward tr = VTensor x /\ shape x = [b; d2]))).
    { destruct (reward tr) as [| | | q | | x |]; try discriminate Er.
      - injection Er as <-. exists 1%nat. split; [reflexivity |]. left. eauto.
      - cbn in Er. destruct (shape x) as [| b [| d2 [| ? ?]]] eqn:Ex;
          try discriminate Er.
        cbn in Er. injection Er as <-. exists b. split; [reflexivity |].
        right. exists x, d2. auto. }
    destruct Hb as (b & -> & Hr).
    exists ds, da, dn, b. repeat split; try reflexivity; [| exact Hr].
    apply leading_checks. eauto.
  - intros (ds & da & dn & b & Es & Ea & En & Hl & Hr).
    rewrite Es, Ea, En. cbn.
    pose proof (all_leading_tensors _ _ Hl) as Ht.
    rewrite !any_not_tensor_app in Ht.
    apply orb_false_iff in Ht as [Ts Ht]. apply orb_false_iff in Ht as [Ta Tn].
    rewrite Ts, Ta, Tn.
    apply leading_checks in Hl as (shapes & firsts & H1 & H2 & H3).
    rewrite H1. cbn.
    assert (Er : reward_batch_size (reward tr) = Ok (Z.of_nat b)).
    { destruct Hr as [[(x & ->) ->] | (x & d2 & -> & Ex)]; [reflexivity |].
      cbn. rewrite Ex. reflexivity. }
    rewrite Er. cbn. rewrite H2. cbn. rewrite H3. reflexivity.
Qed.

(** C6, amended: the constructor returns an object exactly when [state],
    [action] and [next_state] are dictionaries of arrays sharing one leading
    dimension [b] and the reward is either a float, with [b = 1], or a
    two-dimensional tensor whose leading dimension is [b]. *)
Theorem construction_accepts_exactly (h : heap) (s a n r tm : value) (kwargs : dict) :
  constructs h s a n r tm kwargs <-> accepted h s a n r.
Proof.
  unfold constructs, TransitionOps.init, bind, read, alloc.
  rewrite <- (check_input_accepts h
    (Transition.mk (5 + Z.of_nat (length kwargs)) (base_keys ++ dict_keys kwargs)
       s a n r tm kwargs)).
  destruct (_check_input h _) as [[] | e]; cbn; split; congruence.
Qed.

(** C6, as stated, fails: two-row arrays with a one-dimensional reward of
    two elements satisfy the invariants as worded (the reward is an array
    whose leading dimension matches), yet the constructor raises, because a
    tensor reward must be two-dimensional. *)
Lemma flat_reward_is_refused :
  ~ validates_shape_invariants two_rows (VRef 0) (VRef 1) (VRef 2)
      flat_reward (VBool false) [].
Proof.
  intros [_ H].
  assert (S : shape_invariants two_rows (VRef 0) (VRef 1) (VRef 2) flat_reward).
  { eexists _, _, _, 2%nat.
    split; [reflexivity |]. split; [reflexivity |]. split; [reflexivity |].
    split.
    - cbn. repeat (apply List.Forall_cons; [eexists _, _; split; reflexivity |]).
      apply List.Forall_nil.
    - right. eexists _, _. split; reflexivity. }
  apply H in S. vm_compute in S. discriminate S.
Qed.

End TransitionFacts.

(** ** The replay buffer *)

Module BufferFacts.
Import Transition TransitionOps ReplayBuffer Migration Runs Examples HeapFacts.

Lemma get_transition_migrate dev cs (h : heap) l :
  get_transition (migrate_cells dev cs h) l =
  match get_transition h l with
  | Ok tr => Ok (if bool_decide (l ∈ cs) then set_reward (to_dev dev (reward tr)) tr else tr)
  | Raise e => Raise e
  end.
Proof.
  unfold get_transition. rewrite lookup_migrate_cells.
  destruct (h !! l) as [[d | tr] |]; cbn; try reflexivity;
    destruct (bool_decide (l ∈ cs)); reflexivity.
Qed.

Lemma get_dict_migrate dev cs (h : heap) v :
  get_dict (migrate_cells dev cs h) v =
  match get_dict h v with
  | Ok d => Ok (match v with
                | VRef lc => if bool_decide (lc ∈ cs) then migrate_dict_entries dev d else d
                | _ => d
                end)
  | Raise e => Raise e
  end.
Proof.
  unfold get_dict. destruct v as [| | | | | | lc]; try reflexivity.
  rewrite lookup_migrate_cells.
  destruct (h !! lc) as [[d | tr] |]; cbn; try reflexivity;
    destruct (bool_decide (lc ∈ cs)); reflexivity.
Qed.

Lemma valid_dict_at_migrate dev cs (h : heap) v :
  valid_dict_at (migrate_cells dev cs h) v = valid_dict_at h v.
Proof.
  unfold valid_dict_at. rewrite get_dict_migrate.
  destruct (get_dict h v) as [d | e]; [| reflexivity].
  destruct v; try reflexivity.
  destruct (bool_decide _); [apply valid_dict_migrate | reflexivity].
Qed.

Lemma valid_record_migrate dev cs (h : heap) req l :
  valid_record (migrate_cells dev cs h) req l = valid_record h req l.
Proof.
  unfold valid_record. rewrite get_transition_migrate.
  destruct (get_transition h l) as [tr | e]; [| reflexivity].
  destruct (bool_decide _); destruct tr; cbn; rewrite !valid_dict_at_migrate; reflexivity.
Qed.

Lemma len_at_migrate dev cs (h : heap) l :
  len_at (migrate_cells dev cs h) l = len_at h l.
Proof.
  unfold len_at. rewrite get_transition_migrate.
  destruct (get_transition h l) as [tr | e]; [| reflexivity].
  destruct (bool_decide _); destruct tr; reflexivity.
Qed.

Lemma keys_at_migrate dev cs (h : heap) l :
  keys_at (migrate_cells dev cs h) l = keys_at h l.
Proof.
  unfold keys_at. rewrite get_transition_migrate.
  destruct (get_transition h l) as [tr | e]; [| reflexivity].
  destruct (bool_decide _); destruct tr; reflexivity.
Qed.

Lemma valid_record_transition (h : heap) req l :
  valid_record h req l = true ->
  exists tr, get_transition h l = Ok tr /\ has_keys tr req = true /\
             _length tr = Z.of_nat (length (_keys tr)).
Proof.
  unfold valid_record. destruct (get_transition h l) as [tr | e]; [| discriminate].
  intros Hv. repeat (apply andb_prop in Hv as [Hv ?]).
  exists tr. split; [reflexivity |]. split; [assumption |].
  apply Z.eqb_eq. assumption.
Qed.

(** [append] of a well-formed [Transition] object: the record's cells are
    migrated, then the record is placed. *)
Lemma append_obj self (h : heap) req l tr :
  get_transition h l = Ok tr -> valid_record h req l = true ->
  append self (ArgObj l) req h =
    (migrate_cells (buffer_device self) (cells tr l) h,
     fst (place self l (migrate_cells (buffer_device self) (cells tr l) h)),
     snd (place self l (migrate_cells (buffer_device self) (cells tr l) h))).
Proof.
  intros Ht Hv. unfold append, resolve, ret. rewrite Ht.
  destruct (valid_record_transition _ _ _ Hv) as (tr' & Ht' & Hk & _).
  rewrite Ht in Ht'. injection Ht' as <-. rewrite Hk. cbn [negb].
  rewrite (to_spec _ _ _ _ _ Ht Hv).
  destruct (place self l _). reflexivity.
Qed.

Lemma list_getitem_0 {A : Type} (x : A) (rest : list A) :
  list_getitem (x :: rest) 0 = Ok x.
Proof. reflexivity. Qed.

Lemma place_below self l (h : heap) :
  (size self < buffer_size self)%Z ->
  (forall b0, head (buffer self) = Some b0 ->
     exists tr0 tr, get_transition h b0 = Ok tr0 /\ get_transition h l = Ok tr /\
                    len tr0 = len tr) ->
  place self l h = (set_buffer (buffer self ++ [l]) self, Ok (size self)).
Proof.
  intros Hlt Hhead. unfold place.
  assert (Hchk : (if (size self =? 0)%Z then Ok false
         else let+ b0 := list_getitem (buffer self) 0 in
              let+ first := get_transition h b0 in
              let+ tr := get_transition h l in
              Ok (negb (len first =? len tr)%Z)) = Ok false).
  { unfold size in *. destruct (buffer self) as [| b0 rest] eqn:Eb; [reflexivity |].
    cbn [length]. destruct (Z.eqb_spec (Z.of_nat (S (length rest))) 0); [lia |].
    destruct (Hhead b0 eq_refl) as (tr0 & tr & H0 & H1 & Hlen).
    rewrite list_getitem_0. unfold rbind. rewrite H0, H1, Hlen, Z.eqb_refl.
    reflexivity. }
  rewrite Hchk.
  destruct (Z.ltb_spec (buffer_size self) (size self)); [lia |].
  destruct (Z.eqb_spec (size self) (buffer_size self)); [lia |].
  cbn. f_equal. f_equal. unfold size. rewrite length_app. cbn. lia.
Qed.

Lemma place_full self l (h : heap) :
  size self = buffer_size self ->
  (0 <= index self < buffer_size self)%Z ->
  (forall b0, head (buffer self) = Some b0 ->
     exists tr0 tr, get_transition h b0 = Ok tr0 /\ get_transition h l = Ok tr /\
                    len tr0 = len tr) ->
  place self l h =
    (mk (buffer_size self) (buffer_device self)
        (<[Z.to_nat (index self) := l]> (buffer self))
        ((index self + 1) mod buffer_size self)%Z (main_attrs self),
     Ok (index self)).
Proof.
  intros Hsz Hidx Hhead. unfold place.
  assert (Hchk : (if (size self =? 0)%Z then Ok false
         else let+ b0 := list_getitem (buffer self) 0 in
              let+ first := get_transition h b0 in
              let+ tr := get_transition h l in
              Ok (negb (len first =? len tr)%Z)) = Ok false).
  { unfold size in *. destruct (buffer self) as [| b0 rest] eqn:Eb; [reflexivity |].
    cbn [length]. destruct (Z.eqb_spec (Z.of_nat (S (length rest))) 0); [lia |].
    destruct (Hhead b0 eq_refl) as (tr0 & tr & H0 & H1 & Hlen).
    rewrite list_getitem_0. unfold rbind. rewrite H0, H1, Hlen, Z.eqb_refl.
    reflexivity. }
  rewrite Hchk.
  destruct (Z.ltb_spec (buffer_size self) (size self)); [lia |].
  destruct (Z.eqb_spec (size self) (buffer_size self)); [| lia].
  unfold list_setitem, norm_index.
  destruct (Z.leb_spec 0 (index self)); [| lia].
  unfold size in Hsz.
  destruct (Z.ltb_spec (index self) (Z.of_nat (length (buffer self)))); [| lia].
  reflexivity.
Qed.

Lemma place_mismatch self l (h : heap) b0 rest tr0 tr :
  buffer self = b0 :: rest ->
  get_transition h b0 = Ok tr0 -> get_transition h l = Ok tr ->
  len tr0 <> len tr ->
  place self l h = (self, Raise ValueError).
Proof.
  intros Eb H0 H1 Hne. unfold place, size. rewrite Eb. cbn [length].
  destruct (Z.eqb_spec (Z.of_nat (S (length rest))) 0); [lia |].
  rewrite list_getitem_0. unfold rbind. rewrite H0, H1.
  destruct (Z.eqb_spec (len tr0) (len tr)); [contradiction |]. reflexivity.
Qed.

Lemma same_records_refl h : same_records h h.
Proof. intros l. auto. Qed.

Lemma same_records_trans h1 h2 h3 :
  same_records h1 h2 -> same_records h2 h3 -> same_records h1 h3.
Proof.
  intros H12 H23 l. destruct (H12 l) as (A1 & A2 & A3), (H23 l) as (B1 & B2 & B3).
  repeat split; [intros req; rewrite B1; apply A1 | congruence | congruence].
Qed.

Lemma same_records_migrate dev cs (h : heap) :
  same_records h (migrate_cells dev cs h).
Proof.
  intros l. repeat split;
    [intros req; apply valid_record_migrate | apply len_at_migrate | apply keys_at_migrate].
Qed.

Lemma storable_same h h' req n l :
  same_records h h' -> storable h req n l -> storable h' req n l.
Proof.
  intros S [V L]. destruct (S l) as (A1 & A2 & _). split; [rewrite A1 | rewrite A2]; assumption.
Qed.

Lemma storable_transition h req n l :
  storable h req n l -> exists tr, get_transition h l = Ok tr /\ len tr = n.
Proof.
  intros [V L]. destruct (valid_record_transition _ _ _ V) as (tr & Ht & _).
  exists tr. split; [assumption |]. unfold len_at in L. rewrite Ht in L. exact L.
Qed.

Lemma head_check (h : heap) req n (buf : list loc) l :
  Forall (storable h req n) buf -> storable h req n l ->
  forall b0, head buf = Some b0 ->
    exists tr0 tr, get_transition h b0 = Ok tr0 /\ get_transition h l = Ok tr /\
                   len tr0 = len tr.
Proof.
  intros Hb Hl b0 Hh. destruct buf as [| b buf]; [discriminate |].
  injection Hh as ->. apply Forall_cons in Hb as [Hb0 _].
  destruct (storable_transition _ _ _ _ Hb0) as (tr0 & H0 & L0).
  destruct (storable_transition _ _ _ _ Hl) as (tr & H1 & L1).
  exists tr0, tr. repeat split; [assumption | assumption | congruence].
Qed.

(** One append below capacity. *)
Lemma append_below self (h : heap) req n l :
  (size self < buffer_size self)%Z ->
  Forall (storable h req n) (buffer self) -> storable h req n l ->
  exists h', same_records h h' /\
    append self (ArgObj l) req h =
      (h', set_buffer (buffer self ++ [l]) self, Ok (size self)).
Proof.
  intros Hlt Hb Hl.
  destruct (storable_transition _ _ _ _ Hl) as (tr & Ht & _).
  pose proof (same_records_migrate (buffer_device self) (cells tr l) h) as S.
  eexists. split; [exact S |].
  rewrite (append_obj self h req l tr Ht (proj1 Hl)).
  rewrite (place_below self l _ Hlt); [reflexivity |].
  apply (head_check _ req n).
  - eapply Forall_impl; [exact Hb |]. intros x. apply storable_same, S.
  - eapply storable_same; [exact S | exact Hl].
Qed.

(** One append at capacity. *)
Lemma append_full self (h : heap) req n l :
  size self = buffer_size self ->
  (0 <= index self < buffer_size self)%Z ->
  Forall (storable h req n) (buffer self) -> storable h req n l ->
  exists h', same_records h h' /\
    append self (ArgObj l) req h =
      (h',
       mk (buffer_size self) (buffer_device self)
          (<[Z.to_nat (index self) := l]> (buffer self))
          ((index self + 1) mod buffer_size self)%Z (main_attrs self),
       Ok (index self)).
Proof.
  intros Hsz Hidx Hb Hl.
  destruct (storable_transition _ _ _ _ Hl) as (tr & Ht & _).
  pose proof (same_records_migrate (buffer_device self) (cells tr l) h) as S.
  eexists. split; [exact S |].
  rewrite (append_obj self h req l tr Ht (proj1 Hl)).
  rewrite (place_full self l _ Hsz Hidx); [reflexivity |].
  apply (head_check _ req n).
  - eapply Forall_impl; [exact Hb |]. intros x. apply storable_same, S.
  - eapply storable_same; [exact S | exact Hl].
Qed.

Lemma append_all_below req n : forall recs self (h : heap),
  (size self + Z.of_nat (length recs) <= buffer_size self)%Z ->
  Forall (storable h req n) (buffer self) ->
  Forall (storable h req n) recs ->
  exists h', same_records h h' /\
    append_all self h (map ArgObj recs) req =
      (h', set_buffer (buffer self ++ recs) self,
       map (fun i => Ok (size self + Z.of_nat i)%Z) (seq 0 (length recs))).
Proof.
  induction recs as [| l recs IH]; intros self h Hle Hb Hr.
  - exists h. split; [apply same_records_refl |]. cbn. rewrite app_nil_r.
    destruct self; reflexivity.
  - apply Forall_cons in Hr as [Hl Hr]. cbn [length] in Hle.
    destruct (append_below self h req n l) as (h1 & S1 & E1); [lia | assumption | assumption |].
    destruct (IH (set_buffer (buffer self ++ [l]) self) h1) as (h2 & S2 & E2).
    + unfold size in *. cbn. rewrite length_app. cbn. lia.
    + cbn. apply Forall_app. split.
      * eapply Forall_impl; [exact Hb |]. intros x. apply storable_same, S1.
      * constructor; [| constructor].
        eapply storable_same; [exact S1 | exact Hl].
    + eapply Forall_impl; [exact Hr |]. intros x. apply storable_same, S1.
    + exists h2. split; [eapply same_records_trans; eassumption |].
      cbn [map append_all]. rewrite E1, E2. cbn [length seq map].
      f_equal; [f_equal |].
      * cbn. rewrite <- app_assoc. reflexivity.
      * f_equal; [f_equal; lia |].
        rewrite <- seq_shift, map_map. apply map_ext. intros i.
        unfold size. cbn. rewrite length_app. cbn. f_equal. lia.
Qed.

Lemma valid_len_keys (h : heap) req l :
  valid_record h req l = true ->
  len_at h l = Z.of_nat (length (keys_at h l)).
Proof.
  intros V. destruct (valid_record_transition _ _ _ V) as (tr & Ht & _ & E).
  unfold len_at, keys_at. rewrite Ht. exact E.
Qed.

Lemma consistent_storable (h : heap) req recs :
  Forall (fun l => valid_record h req l = true) recs ->
  schema_consistent h recs ->
  exists n, Forall (storable h req n) recs.
Proof.
  intros Hv [ks Hk]. exists (Z.of_nat (length ks)).
  induction recs as [| l recs IH]; [constructor |].
  apply Forall_cons in Hv as [Hv Hvs]. apply Forall_cons in Hk as [Hk Hks].
  constructor; [| apply IH; assumption].
  split; [assumption |].
  rewrite (valid_len_keys _ _ _ Hv), (Permutation_length Hk). reflexivity.
Qed.

(** C2: [N] appends of well-formed records sharing one field-name set,
    with [N] at most the capacity, into a fresh store: the [i]-th append
    returns [i], the tail index it wrote to; afterwards [size()] is [N] and
    the buffer holds the records in insertion order. *)
Theorem append_within_capacity cap dev m req (h : heap) (recs : list loc) :
  Forall (fun l => valid_record h req l = true) recs ->
  schema_consistent h recs ->
  (Z.of_nat (length recs) <= cap)%Z ->
  let out := append_all (ReplayBuffer.init cap dev m) h (map ArgObj recs) req in
  snd out = map (fun i => Ok (Z.of_nat i)) (seq 0 (length recs)) /\
  buffer (snd (fst out)) = recs /\
  size (snd (fst out)) = Z.of_nat (length recs).
Proof.
  intros Hv Hc Hle.
  destruct (consistent_storable _ _ _ Hv Hc) as (n & Hs).
  destruct (append_all_below req n recs (ReplayBuffer.init cap dev m) h)
    as (h' & _ & E);
    [change (0 + Z.of_nat (length recs) <= cap)%Z; lia | constructor | assumption |].
  cbn zeta. rewrite E. cbn. repeat split; reflexivity.
Qed.

(** C1, amended: a freshly constructed store of capacity 3 and five such
    records R1..R5.  The appends return 0, 1, 2, 0, 1; afterwards [size()] is 3, the cursor is 2 and the
    buffer reads R4, R5, R3 in index order: R4 and R5 overwrote slots 0 and
    1, and the oldest survivor R3 sits at the cursor. *)
Theorem ring_of_three_after_five dev m req (h : heap) (r1 r2 r3 r4 r5 : loc) :
  Forall (fun l => valid_record h req l = true) [r1; r2; r3; r4; r5] ->
  schema_consistent h [r1; r2; r3; r4; r5] ->
  let out := append_all (ReplayBuffer.init 3 dev m) h
               (map ArgObj [r1; r2; r3; r4; r5]) req in
  size (snd (fst out)) = 3%Z /\
  buffer (snd (fst out)) = [r4; r5; r3] /\
  index (snd (fst out)) = 2%Z /\
  snd out = [Ok 0; Ok 1; Ok 2; Ok 0; Ok 1]%Z.
Proof.
  intros Hv Hc.
  destruct (consistent_storable _ _ _ Hv Hc) as (n & Hs).
  apply Forall_cons in Hs as [S1 Hs]. apply Forall_cons in Hs as [S2 Hs].
  apply Forall_cons in Hs as [S3 Hs]. apply Forall_cons in Hs as [S4 Hs].
  apply Forall_cons in Hs as [S5 _].
  set (s0 := ReplayBuffer.init 3 dev m).
  destruct (append_below s0 h req n r1) as (h1 & E1 & A1);
    [unfold s0, size, ReplayBuffer.init, set_buffer; cbn; lia | constructor | assumption |].
  pose proof (fun l => storable_same h h1 req n l E1) as T1.
  destruct (append_below (set_buffer (buffer s0 ++ [r1]) s0) h1 req n r2)
    as (h2 & E2 & A2); [unfold s0, size, ReplayBuffer.init, set_buffer; cbn; lia | solve [unfold s0; cbn; repeat (apply List.Forall_cons; [solve [auto] |]); apply List.Forall_nil] | solve [auto] |].
  pose proof (fun l H => storable_same _ _ req n l E2 (T1 l H)) as T2.
  destruct (append_below (set_buffer [r1; r2] s0) h2 req n r3)
    as (h3 & E3 & A3); [unfold s0, size, ReplayBuffer.init, set_buffer; cbn; lia | solve [unfold s0; cbn; repeat (apply List.Forall_cons; [solve [auto] |]); apply List.Forall_nil] | solve [auto] |].
  pose proof (fun l H => storable_same _ _ req n l E3 (T2 l H)) as T3.
  destruct (append_full (set_buffer [r1; r2; r3] s0) h3 req n r4)
    as (h4 & E4 & A4); [reflexivity | unfold s0, size, ReplayBuffer.init, set_buffer; cbn; lia | solve [unfold s0; cbn; repeat (apply List.Forall_cons; [solve [auto] |]); apply List.Forall_nil] | solve [auto] |].
  pose proof (fun l H => storable_same _ _ req n l E4 (T3 l H)) as T4.
  destruct (append_full (mk 3 dev [r4; r2; r3] 1 (main_attrs s0)) h4 req n r5)
    as (h5 & E5 & A5); [reflexivity | unfold s0, size, ReplayBuffer.init, set_buffer; cbn; lia | solve [unfold s0; cbn; repeat (apply List.Forall_cons; [solve [auto] |]); apply List.Forall_nil] | solve [auto] |].
  cbn [map append_all]. cbn zeta.
  rewrite A1. cbn [app buffer].
  change (set_buffer [r1] s0) with (set_buffer (buffer s0 ++ [r1]) s0).
  rewrite A2. change (set_buffer (buffer (set_buffer (buffer s0 ++ [r1]) s0) ++ [r2])
                        (set_buffer (buffer s0 ++ [r1]) s0)) with (set_buffer [r1; r2] s0).
  rewrite A3. change (set_buffer (buffer (set_buffer [r1; r2] s0) ++ [r3])
                        (set_buffer [r1; r2] s0)) with (set_buffer [r1; r2; r3] s0).
  rewrite A4.
  change (mk (buffer_size (set_buffer [r1; r2; r3] s0))
            (buffer_device (set_buffer [r1; r2; r3] s0))
            (<[Z.to_nat (index (set_buffer [r1; r2; r3] s0)):=r4]>
               (buffer (set_buffer [r1; r2; r3] s0)))
            ((index (set_buffer [r1; r2; r3] s0) + 1)
             mod buffer_size (set_buffer [r1; r2; r3] s0))%Z
            (main_attrs (set_buffer [r1; r2; r3] s0)))
    with (mk 3 dev [r4; r2; r3] 1 (main_attrs s0)).
  rewrite A5. cbn. repeat split; reflexivity.
Qed.

(** A failed length check comes after the migration of the argument. *)
Lemma append_len_mismatch self (h : heap) req l b0 rest tr0 tr :
  buffer self = b0 :: rest ->
  get_transition h b0 = Ok tr0 -> get_transition h l = Ok tr ->
  valid_record h req l = true ->
  len tr0 <> len tr ->
  append self (ArgObj l) req h =
    (migrate_cells (buffer_device self) (cells tr l) h, self, Raise ValueError).
Proof.
  intros Eb H0 H1 V Hne.
  rewrite (append_obj self h req l tr H1 V).
  pose proof (get_transition_migrate (buffer_device self) (cells tr l) h b0) as G0.
  pose proof (get_transition_migrate (buffer_device self) (cells tr l) h l) as G1.
  rewrite H0 in G0. rewrite H1 in G1.
  rewrite (place_mismatch self l _ b0 rest _ _ Eb G0 G1); [reflexivity |].
  destruct (bool_decide (b0 ∈ _)), (bool_decide (l ∈ _)), tr0, tr; exact Hne.
Qed.

(** C5, amended: on a non-empty store, a well-formed record whose field
    count [len] differs from that of the record at index 0 is refused with
    [ValueError]; the store object, hence [size()] and the stored sequence,
    is unchanged; heap cells outside the refused record, and cells already
    on the store's device, are unchanged. *)
Theorem append_length_mismatch_rejected self (h : heap) req l b0 rest tr0 tr :
  buffer self = b0 :: rest ->
  get_transition h b0 = Ok tr0 -> get_transition h l = Ok tr ->
  valid_record h req l = true ->
  len tr0 <> len tr ->
  let out := append self (ArgObj l) req h in
  snd out = Raise ValueError /\
  snd (fst out) = self /\
  size (snd (fst out)) = size self /\
  (forall c, c ∉ cells tr l -> fst (fst out) !! c = h !! c) /\
  (forall c o, h !! c = Some o -> on_device_obj (buffer_device self) o = true ->
               fst (fst out) !! c = Some o).
Proof.
  intros Eb H0 H1 V Hne. cbn zeta.
  rewrite (append_len_mismatch self h req l b0 rest tr0 tr Eb H0 H1 V Hne). cbn.
  repeat split.
  - intros c Hc. apply migrate_cells_outside, Hc.
  - intros c o Hc Hd. apply migrate_cells_on_device; assumption.
Qed.

(** C10: on a non-empty store, appending a well-formed record whose field
    count differs from the stored one raises [ValueError] and leaves the
    store unchanged, yet every cell of the caller's record has been moved to
    the store's device, nothing else in the heap has been touched, and the
    heap differs from the one before whenever some cell of the record was
    not on that device. *)
Theorem failed_append_has_migrated_argument self (h : heap) req l b0 rest tr0 tr :
  buffer self = b0 :: rest ->
  get_transition h b0 = Ok tr0 -> get_transition h l = Ok tr ->
  valid_record h req l = true ->
  len tr0 <> len tr ->
  exists h',
    append self (ArgObj l) req h = (h', self, Raise ValueError) /\
    (forall c o, c ∈ cells tr l -> h !! c = Some o ->
       h' !! c = Some (migrate_obj (buffer_device self) o) /\
       on_device_obj (buffer_device self) (migrate_obj (buffer_device self) o) = true) /\
    (forall c, c ∉ cells tr l -> h' !! c = h !! c) /\
    ((exists c o, c ∈ cells tr l /\ h !! c = Some o /\
                  on_device_obj (buffer_device self) o = false) -> h' <> h).
Proof.
  intros Eb H0 H1 V Hne.
  exists (migrate_cells (buffer_device self) (cells tr l) h).
  split; [apply (append_len_mismatch self h req l b0 rest tr0 tr); assumption |].
  split; [| split].
  - intros c o Hc Ho. split; [apply migrate_cells_inside; assumption |].
    apply on_device_migrate.
  - intros c Hc. apply migrate_cells_outside, Hc.
  - intros (c & o & Hc & Ho & Hd) E.
    pose proof (migrate_cells_inside (buffer_device self) _ h c o Hc Ho) as Hm.
    rewrite E, Ho in Hm. injection Hm as Hm. symmetry in Hm.
    apply migrate_on_device in Hm. congruence.
Qed.

(** C3, evaluated on the code: on an empty store [sample_batch(5, "random")]
    raises [ValueError] (from [random.randint(0, -1)]), and with the default
    [sample_keys] every named strategy raises, whatever the batch size. *)
Theorem sample_batch_on_empty_store_raises
    cap dev m (h : heap) draw batch_size concatenate target name extra :
  sample_batch (ReplayBuffer.init cap dev m) h draw 5 true None
               (ByName "random") None None = Raise ValueError /\
  is_ok (sample_batch (ReplayBuffer.init cap dev m) h draw batch_size
                      concatenate target (ByName name) None extra) = false.
Proof.
  split; [reflexivity |].
  unfold sample_batch, run_sampler. cbn [buffer ReplayBuffer.init].
  destruct (String.eqb name "random_unique").
  { unfold sample_method_random_unique, Random.sample. cbn [length].
    destruct (Z.ltb_spec (Z.of_nat 0) batch_size) as [Hlt | Hge]; [reflexivity |].
    destruct (Z.ltb_spec batch_size 0) as [Hneg | Hnn]; [reflexivity |].
    cbn [orb]. destruct (Z.ltb_spec (Z.of_nat 0) batch_size); [lia |].
    assert (batch_size = 0%Z) as -> by lia. reflexivity. }
  destruct (String.eqb name "random").
  { unfold sample_method_random. cbn [length].
    destruct (Z.to_nat batch_size) as [| k]; reflexivity. }
  destruct (String.eqb name "all"); reflexivity.
Qed.

Ltac all_records :=
  repeat (apply List.Forall_cons; [vm_compute; reflexivity |]);
  apply List.Forall_nil.

Ltac one_schema :=
  exists TransitionOps.base_keys;
  repeat (apply List.Forall_cons; [vm_compute; reflexivity |]);
  apply List.Forall_nil.

Lemma append_within_capacity_witness :
  buffer (snd (fst (append_all (ReplayBuffer.init 3 "cpu" None) six_steps
                      (map ArgObj [R1; R2; R3]) default_required_keys)))
  = [R1; R2; R3].
Proof.
  refine (proj1 (proj2 (append_within_capacity 3 "cpu" None
            default_required_keys six_steps [R1; R2; R3] _ _ _))).
  - all_records.
  - one_schema.
  - vm_compute. discriminate.
Defined.

(** C1, as stated, fails: with capacity 3 the buffer after R1..R5 does not
    read R3, R4, R5 in index order. *)
Lemma ring_order_counterexample :
  ~ keeps_insertion_order 3 "cpu" six_steps [R1; R2; R3; R4; R5]
      default_required_keys.
Proof.
  unfold keeps_insertion_order. intros [_ H]. vm_compute in H. discriminate H.
Qed.

Lemma ring_of_three_after_five_witness :
  buffer (snd (fst (append_all (ReplayBuffer.init 3 "cpu" None) six_steps
                      (map ArgObj [R1; R2; R3; R4; R5]) default_required_keys)))
  = [R4; R5; R3].
Proof.
  refine (proj1 (proj2 (ring_of_three_after_five "cpu" None
            default_required_keys six_steps R1 R2 R3 R4 R5 _ _))).
  - all_records.
  - one_schema.
Defined.

(** C4, evaluated on the code: a store of capacity 2 that has seen three
    records has its cursor at 1, and [clear()] leaves it there.  Refilled
    with R4, R5, R6 the cleared store writes to 0, 1, 1 and ends as
    [R4, R6], dropping the newest stored record R5; a fresh store writes to
    0, 1, 0 and ends as [R6, R5]. *)
Theorem clear_keeps_write_cursor :
  let h := fst used_store in
  let cleared := clear (snd used_store) in
  let fresh := ReplayBuffer.init 2 "cpu" None in
  let after_clear :=
    append_all cleared h (map ArgObj [R4; R5; R6]) default_required_keys in
  let after_init :=
    append_all fresh h (map ArgObj [R4; R5; R6]) default_required_keys in
  size cleared = 0%Z /\ index cleared = 1%Z /\ index fresh = 0%Z /\
  snd after_clear = [Ok 0; Ok 1; Ok 1]%Z /\
  buffer (snd (fst after_clear)) = [R4; R6] /\
  snd after_init = [Ok 0; Ok 1; Ok 0]%Z /\
  buffer (snd (fst after_init)) = [R6; R5].
Proof. vm_compute. repeat split. Qed.

(** C5, as stated, fails: the store's first record carries the extra field
    [log_prob]; a record carrying [value] instead has another field-name
    set and the same field count, and is accepted. *)
Lemma other_field_set_is_accepted :
  ~ field_set_mismatch_rejected (snd (store_with log_prob_step))
      (fst (store_with log_prob_step)) value_step default_required_keys.
Proof.
  intros H.
  assert (Hh : head (buffer (snd (store_with log_prob_step))) = Some log_prob_step)
    by (vm_compute; reflexivity).
  specialize (H log_prob_step Hh).
  assert (Hp : ~ (keys_at (fst (store_with log_prob_step)) log_prob_step
                  ≡ₚ keys_at (fst (store_with log_prob_step)) value_step)).
  { intros P. apply (Permutation_in "log_prob") in P.
    - vm_compute in P. intuition discriminate.
    - vm_compute. intuition. }
  destruct (H Hp) as [Hr _]. vm_compute in Hr. discriminate Hr.
Qed.

Lemma append_length_mismatch_rejected_witness :
  snd (append (snd (store_with plain_step)) (ArgObj log_prob_step)
              default_required_keys (fst (store_with plain_step)))
  = Raise ValueError.
Proof.
  refine (proj1 (append_length_mismatch_rejected
            (snd (store_with plain_step)) (fst (store_with plain_step))
            default_required_keys log_prob_step plain_step [] _ _ _ _ _ _ _)).
  - vm_compute. reflexivity.
  - vm_compute. reflexivity.
  - vm_compute. reflexivity.
  - vm_compute. reflexivity.
  - vm_compute. discriminate.
Defined.

Lemma failed_append_has_migrated_argument_witness :
  snd (append (snd (store_with plain_step)) (ArgObj log_prob_step)
              default_required_keys (fst (store_with plain_step)))
    = Raise ValueError /\
  fst (fst (append (snd (store_with plain_step)) (ArgObj log_prob_step)
                   default_required_keys (fst (store_with plain_step))))
    <> fst (store_with plain_step).
Proof.
  destruct (failed_append_has_migrated_argument
              (snd (store_with plain_step)) (fst (store_with plain_step))
              default_required_keys log_prob_step plain_step []
              (Transition.mk 5 TransitionOps.base_keys (VRef 0) (VRef 1) (VRef 2)
                 (VFloat 1%Q) (VBool false) [])
              (Transition.mk 6 (TransitionOps.base_keys ++ ["log_prob"])
                 (VRef 4) (VRef 5) (VRef 6) (VFloat 2%Q) (VBool false)
                 [("log_prob", VFloat 0%Q)]))
    as (h' & E & _ & _ & Hne).
  - vm_compute. reflexivity.
  - vm_compute. reflexivity.
  - vm_compute. reflexivity.
  - vm_compute. reflexivity.
  - vm_compute. discriminate.
  - rewrite E. split; [reflexivity |]. apply Hne.
    exists 4%nat, (ODict [("state", zeros [1; 4]%nat "cuda:0")]).
    split; [| split].
    + apply elem_of_cons. left. reflexivity.
    + vm_compute. reflexivity.
    + vm_compute. reflexivity.
Defined.

(** C7, evaluated on the code: one pre-batched record of two rows is
    stored and every record is sampled, so [actual_count] is 1.  The
    concatenated sub-arrays of the main fields have leading dimension 2, the
    reward, forced by [view(batch_size, -1)], has shape [1, 2], and the
    terminal column has shape [1, 1]. *)
Theorem concatenation_of_batched_record (draw : Random.source) :
  sample_batch (snd batched_store) (fst batched_store) draw 8 true None
               (ByName "all") None None
  = Ok (1%Z,
        [OutDict [("state", mkTensor [2; 4]%nat "cpu" (repeat 0%Q 8))];
         OutDict [("action", mkTensor [2; 1]%nat "cpu" (repeat 0%Q 2))];
         OutDict [("state", mkTensor [2; 4]%nat "cpu" (repeat 0%Q 8))];
         OutTensor (mkTensor [1; 2]%nat "cpu" (repeat 0%Q 2));
         OutTensor (mkTensor [1; 1]%nat "cpu" (repeat 0%Q 1))]).
Proof. vm_compute. reflexivity. Qed.

End BufferFacts.

(** * Further facts *)

(** ** The store: capacity, cursor and errors *)

Module StoreFacts.
Import Transition TransitionOps ReplayBuffer Migration Runs Shapes Examples.
Import HeapFacts TransitionFacts BufferFacts.

Lemma mod_window (cap N j : nat) :
  (1 <= cap)%nat -> (N + 1 - cap <= j < N)%nat -> (cap <= N)%nat ->
  (j mod cap <> N mod cap)%nat.
Proof.
  intros Hc Hj HN E.
  pose proof (Nat.div_mod_eq j cap) as Dj. pose proof (Nat.div_mod_eq N cap) as DN.
  pose proof (Nat.mod_upper_bound j cap ltac:(lia)).
  rewrite <- E in DN.
  assert (N - j = cap * (N / cap - j / cap))%nat by nia.
  assert (0 < N / cap - j / cap)%nat by nia.
  nia.
Qed.

Lemma mod_oldest (cap N : nat) :
  (1 <= cap)%nat -> (cap <= N)%nat -> ((N - cap) mod cap = N mod cap)%nat.
Proof.
  intros Hc HN. replace N with ((N - cap) + 1 * cap)%nat at 2 by lia.
  rewrite Nat.Div0.mod_add. reflexivity.
Qed.

Lemma index_next (cap N : nat) :
  (1 <= cap)%nat ->
  ((Z.of_nat (N mod cap) + 1) mod Z.of_nat cap)%Z = Z.of_nat ((N + 1) mod cap).
Proof.
  intros Hc. rewrite !Nat2Z.inj_mod, Nat2Z.inj_add. cbn.
  rewrite Zplus_mod_idemp_l. reflexivity.
Qed.

Lemma insert_replaces_oldest (buf : list loc) i x y rest :
  buf !! i = Some x -> buf ≡ₚ x :: rest -> <[i := y]> buf ≡ₚ rest ++ [y].
Proof.
  intros Hi Hp.
  pose proof (delete_Permutation buf i x Hi) as Hd.
  assert (Hr : delete i buf ≡ₚ rest).
  { apply (Permutation_cons_inv (a := x)). rewrite <- Hd. exact Hp. }
  rewrite insert_take_drop by (eapply lookup_lt_Some; eauto).
  rewrite delete_take_drop in Hr.
  rewrite <- Hr. rewrite <- Permutation_middle.
  rewrite (Permutation_app_comm _ [y]). reflexivity.
Qed.

Lemma ring_inv_storable cap self seen (h : heap) req n :
  ring_inv cap self seen -> Forall (storable h req n) seen ->
  Forall (storable h req n) (buffer self).
Proof.
  intros (_ & _ & _ & _ & Hp) Hs. rewrite Hp. apply Forall_drop, Hs.
Qed.

Lemma ring_step cap self seen (h : heap) req n l :
  (1 <= cap)%nat ->
  ring_inv cap self seen ->
  Forall (storable h req n) seen -> storable h req n l ->
  exists h' self',
    append self (ArgObj l) req h =
      (h', self', Ok (Z.of_nat (length seen mod cap))) /\
    same_records h h' /\ ring_inv cap self' (seen ++ [l]) /\
    buffer_device self' = buffer_device self /\
    main_attrs self' = main_attrs self.
Proof.
  intros Hc Hinv Hs Hl.
  pose proof (ring_inv_storable _ _ _ _ _ _ Hinv Hs) as Hb.
  destruct Hinv as (Hcap & Hlen & Hidx & Hpt & Hp).
  destruct (Nat.ltb_spec (length seen) cap) as [Hlt | Hge].
  - (* below capacity *)
    destruct (append_below self h req n l) as (h' & Hsame & E);
      [unfold size; lia | assumption | assumption |].
    exists h', (set_buffer (buffer self ++ [l]) self).
    rewrite Nat.min_l in Hlen by lia.
    split; [rewrite E; unfold size; rewrite Hlen, Nat.mod_small by lia; reflexivity |].
    split; [exact Hsame |]. split; [| split; reflexivity].
    assert (Eb : buffer self = seen).
    { apply Permutation_length in Hp as Hp'.
      replace (length seen - cap)%nat with 0%nat in * by lia. cbn in *.
      apply list_eq. intros j.
      destruct (Nat.lt_ge_cases j (length seen)) as [Hj | Hj].
      - rewrite <- (Hpt j) by lia. rewrite Nat.mod_small by lia. reflexivity.
      - rewrite !lookup_ge_None_2 by lia. reflexivity. }
    unfold ring_inv.
    cbn [buffer set_buffer index buffer_size]. rewrite !length_app.
    cbn [length].
    split; [exact Hcap |]. split; [lia |].
    split.
    { rewrite Hidx. destruct (Nat.ltb_spec (length seen + 1) cap); [reflexivity |].
      replace (length seen + 1)%nat with cap by lia.
      rewrite Nat.Div0.mod_same. reflexivity. }
    replace (length seen + 1 - cap)%nat with 0%nat by lia.
    split; [| rewrite Eb; reflexivity].
    intros j Hj. rewrite Nat.mod_small by lia. rewrite Eb. reflexivity.
  - (* at capacity *)
    rewrite Nat.min_r in Hlen by lia.
    destruct (append_full self h req n l) as (h' & Hsame & E);
      [unfold size; lia | rewrite Hidx, Hcap; pose proof (Nat.mod_upper_bound (length seen) cap); lia
       | assumption | assumption |].
    rewrite Hidx, Hcap, Nat2Z.id in E.
    exists h', (mk (Z.of_nat cap) (buffer_device self)
                  (<[(length seen mod cap)%nat := l]> (buffer self))
                  ((Z.of_nat (length seen mod cap) + 1) mod Z.of_nat cap)%Z
                  (main_attrs self)).
    split; [exact E |].
    split; [exact Hsame |]. split; [| split; reflexivity].
    unfold ring_inv.
    cbn [buffer index buffer_size]. rewrite !length_app, length_insert.
    cbn [length].
    split; [reflexivity |]. split; [lia |].
    split.
    { destruct (Nat.ltb_spec (length seen + 1) cap); [lia |].
      apply index_next. exact Hc. }
    assert (Hold : buffer self !! (length seen mod cap)%nat = seen !! (length seen - cap)%nat).
    { rewrite <- (Hpt (length seen - cap)%nat) by lia.
      rewrite mod_oldest by lia. reflexivity. }
    split.
    + intros j Hj. destruct (Nat.eq_dec j (length seen)) as [-> | Hne].
      * rewrite list_lookup_insert_eq
          by (rewrite Hlen; apply Nat.mod_upper_bound; lia).
        rewrite lookup_app_r by lia. rewrite Nat.sub_diag. reflexivity.
      * rewrite list_lookup_insert_ne
          by (intros C; apply (mod_window cap (length seen) j); [lia | lia | lia | congruence]).
        rewrite lookup_app_l by lia. apply Hpt. lia.
    + destruct (seen !! (length seen - cap)%nat) as [x |] eqn:Ex;
        [| apply lookup_ge_None in Ex; lia].
      replace (length seen + 1 - cap)%nat with (S (length seen - cap)) by lia.
      rewrite drop_app_le by lia.
      apply (insert_replaces_oldest _ _ x); [exact Hold |].
      rewrite Hp. rewrite (drop_S _ _ _ Ex). reflexivity.
Qed.

Lemma ring_run cap req n : (1 <= cap)%nat ->
  forall recs self seen (h : heap),
  ring_inv cap self seen ->
  Forall (storable h req n) seen -> Forall (storable h req n) recs ->
  exists h' self',
    append_all self h (map ArgObj recs) req =
      (h', self',
       map (fun j => Ok (Z.of_nat (j mod cap))) (seq (length seen) (length recs))) /\
    same_records h h' /\ ring_inv cap self' (seen ++ recs) /\
    buffer_device self' = buffer_device self /\
    main_attrs self' = main_attrs self.
Proof.
  intros Hc. induction recs as [| l recs IH]; intros self seen h Hinv Hs Hr.
  - exists h, self. rewrite app_nil_r.
    split; [reflexivity |]. split; [apply same_records_refl |].
    split; [exact Hinv |]. split; reflexivity.
  - apply Forall_cons in Hr as [Hl Hr].
    destruct (ring_step cap self seen h req n l Hc Hinv Hs Hl)
      as (h1 & self1 & E1 & S1 & I1 & D1 & M1).
    destruct (IH self1 (seen ++ [l]) h1 I1) as (h2 & self2 & E2 & S2 & I2 & D2 & M2).
    + apply Forall_app. split.
      * eapply Forall_impl; [exact Hs |]. intros x. apply storable_same, S1.
      * apply List.Forall_cons; [| apply List.Forall_nil].
        eapply storable_same; [exact S1 | exact Hl].
    + eapply Forall_impl; [exact Hr |]. intros x. apply storable_same, S1.
    + exists h2, self2. cbn [map append_all]. rewrite E1, E2.
      rewrite <- app_assoc in I2. cbn in I2.
      split; [| split; [eapply same_records_trans; eassumption |
                        split; [exact I2 | split; congruence]]].
      cbn [length seq map]. rewrite length_app. cbn [length].
      replace (length seen + 1)%nat with (Datatypes.S (length seen)) by lia.
      reflexivity.
Qed.

Lemma ring_inv_init cap dev m :
  ring_inv cap (ReplayBuffer.init (Z.of_nat cap) dev m) [].
Proof.
  unfold ring_inv. cbn [ReplayBuffer.init buffer index buffer_size length].
  split; [reflexivity |]. split; [reflexivity |].
  split; [destruct cap; reflexivity |].
  split; [intros j Hj; lia | reflexivity].
Qed.

(** X1: a store of capacity [cap >= 1], filled from empty with any number
    of well-formed records of one schema, returns position [j mod cap] for
    the [j]-th append, holds [min(N, cap)] records, namely the last [cap]
    appended (as a multiset), and keeps record [j] of those in slot
    [j mod cap]. *)
Theorem ring_holds_most_recent (cap : nat) dev m req (h : heap) (recs : list loc) :
  (1 <= cap)%nat ->
  Forall (fun l => valid_record h req l = true) recs ->
  schema_consistent h recs ->
  let out := append_all (ReplayBuffer.init (Z.of_nat cap) dev m) h
               (map ArgObj recs) req in
  snd out = map (fun j => Ok (Z.of_nat (j mod cap))) (seq 0 (length recs)) /\
  size (snd (fst out)) = Z.of_nat (min (length recs) cap) /\
  buffer (snd (fst out)) ≡ₚ drop (length recs - cap) recs /\
  (forall j, (length recs - cap <= j < length recs)%nat ->
     buffer (snd (fst out)) !! (j mod cap)%nat = recs !! j).
Proof.
  intros Hc Hv Hs.
  destruct (consistent_storable _ _ _ Hv Hs) as (n & Hn).
  destruct (ring_run cap req n Hc recs _ [] h (ring_inv_init cap dev m)
              (List.Forall_nil _) Hn)
    as (h' & self' & E & _ & (_ & Hlen & _ & Hpt & Hp) & _).
  cbn zeta. rewrite E. cbn [fst snd app length] in *.
  split; [reflexivity |]. split; [unfold size; rewrite Hlen; reflexivity |].
  split; assumption.
Qed.

(** The length check of line 125 passes between storable records. *)
Lemma place_check_passes self l (h : heap) req n :
  Forall (storable h req n) (buffer self) -> storable h req n l ->
  (if (size self =? 0)%Z then Ok false
   else let+ b0 := list_getitem (buffer self) 0 in
        let+ first := get_transition h b0 in
        let+ tr := get_transition h l in
        Ok (negb (len first =? len tr)%Z)) = Ok false.
Proof.
  intros Hb Hl. unfold size.
  destruct (buffer self) as [| b0 rest] eqn:Eb; [reflexivity |].
  cbn [length]. destruct (Z.eqb_spec (Z.of_nat (Datatypes.S (length rest))) 0); [lia |].
  destruct (head_check h req n (b0 :: rest) l Hb Hl b0 eq_refl)
    as (tr0 & tr & H0 & H1 & Hlen).
  rewrite list_getitem_0. unfold rbind. rewrite H0, H1, Hlen, Z.eqb_refl.
  reflexivity.
Qed.

Lemma place_trim self l (h : heap) req n :
  (0 < buffer_size self < size self)%Z ->
  (0 <= index self < buffer_size self)%Z ->
  Forall (storable h req n) (buffer self) -> storable h req n l ->
  place self l h =
    (mk (buffer_size self) (buffer_device self)
        (<[Z.to_nat (index self) := l]>
           (drop (Z.to_nat (size self - buffer_size self)) (buffer self)))
        ((index self + 1) mod buffer_size self)%Z (main_attrs self),
     Ok (index self)).
Proof.
  intros Hsz Hidx Hb Hl. unfold place.
  rewrite (place_check_passes self l h req n Hb Hl).
  destruct (Z.ltb_spec (buffer_size self) (size self)); [| lia].
  set (self1 := set_buffer _ self).
  assert (Hs1 : size self1 = buffer_size self).
  { unfold self1, size in *. cbn. rewrite length_drop. lia. }
  change (buffer_size self1) with (buffer_size self).
  destruct (Z.eqb_spec (size self1) (buffer_size self)); [| lia].
  unfold list_setitem, norm_index. change (index self1) with (index self).
  destruct (Z.leb_spec 0 (index self)); [| lia].
  unfold size in Hs1.
  destruct (Z.ltb_spec (index self) (Z.of_nat (length (buffer self1)))); [| lia].
  reflexivity.
Qed.

Lemma norm_index_empty i : norm_index 0 i = None.
Proof.
  unfold norm_index. change (Z.of_nat 0) with 0%Z. change (- 0)%Z with 0%Z.
  destruct (Z.leb_spec 0 i); [| reflexivity].
  destruct (Z.ltb_spec i 0); [lia | reflexivity].
Qed.

Lemma place_zero_capacity self l (h : heap) req n :
  buffer_size self = 0%Z ->
  Forall (storable h req n) (buffer self) -> storable h req n l ->
  place self l h = (set_buffer [] self, Raise IndexError).
Proof.
  intros Hz Hb Hl. unfold place.
  rewrite (place_check_passes self l h req n Hb Hl).
  assert (E1 : (if (buffer_size self <? size self)%Z
                then set_buffer (drop (Z.to_nat (size self - buffer_size self))
                                      (buffer self)) self
                else self) = set_buffer [] self).
  { destruct (Z.ltb_spec (buffer_size self) (size self)) as [Hlt | Hge].
    - f_equal. apply drop_ge. unfold size. lia.
    - assert (buffer self = []) as Eb.
      { unfold size in Hge. destruct (buffer self); [reflexivity | cbn in Hge; lia]. }
      destruct self; cbn in *; subst; reflexivity. }
  rewrite E1. unfold size. cbn [set_buffer buffer buffer_size index length].
  rewrite Hz. cbn [Z.of_nat Z.eqb].
  unfold list_setitem. cbn [length]. rewrite norm_index_empty. reflexivity.
Qed.

Lemma place_negative_capacity self l (h : heap) req n :
  (buffer_size self < 0)%Z ->
  Forall (storable h req n) (buffer self) -> storable h req n l ->
  place self l h = (set_buffer [l] self, Ok 0%Z).
Proof.
  intros Hneg Hb Hl. unfold place.
  rewrite (place_check_passes self l h req n Hb Hl).
  assert (Hsz : (0 <= size self)%Z) by (unfold size; lia).
  destruct (Z.ltb_spec (buffer_size self) (size self)); [| lia].
  assert (Ed : drop (Z.to_nat (size self - buffer_size self)) (buffer self) = []).
  { apply drop_ge. unfold size in *. lia. }
  rewrite Ed. unfold size. cbn [set_buffer buffer buffer_size length].
  destruct (Z.eqb_spec (Z.of_nat 0) (buffer_size self)); [lia |].
  reflexivity.
Qed.

Lemma append_via_place self (h : heap) req n l :
  Forall (storable h req n) (buffer self) -> storable h req n l ->
  exists h', same_records h h' /\
    Forall (storable h' req n) (buffer self) /\ storable h' req n l /\
    append self (ArgObj l) req h =
      (h', fst (place self l h'), snd (place self l h')).
Proof.
  intros Hb Hl.
  destruct (storable_transition _ _ _ _ Hl) as (tr & Ht & _).
  pose proof (same_records_migrate (buffer_device self) (cells tr l) h) as Hsame.
  eexists. split; [exact Hsame |].
  split; [eapply Forall_impl; [exact Hb |]; intros x; apply storable_same, Hsame |].
  split; [eapply storable_same; [exact Hsame | exact Hl] |].
  apply (append_obj self h req l tr Ht (proj1 Hl)).
Qed.

(** X2: when the store holds more records than its capacity (the
    capacity was lowered), [append] first drops the first
    [size - buffer_size] entries of the list (the front of the buffer,
    whichever records sit there), then overwrites the slot under the
    cursor, returns the cursor and advances it modulo the capacity; the
    size becomes the capacity. *)
Theorem append_trims_oversized_store self (h : heap) req n l :
  (0 < buffer_size self < size self)%Z ->
  (0 <= index self < buffer_size self)%Z ->
  Forall (storable h req n) (buffer self) -> storable h req n l ->
  let out := append self (ArgObj l) req h in
  snd out = Ok (index self) /\
  buffer (snd (fst out)) =
    <[Z.to_nat (index self) := l]>
      (drop (Z.to_nat (size self - buffer_size self)) (buffer self)) /\
  size (snd (fst out)) = buffer_size self /\
  index (snd (fst out)) = ((index self + 1) mod buffer_size self)%Z.
Proof.
  intros Hsz Hidx Hb Hl.
  destruct (append_via_place self h req n l Hb Hl) as (h' & _ & Hb' & Hl' & E).
  cbn zeta. rewrite E, (place_trim self l h' req n Hsz Hidx Hb' Hl').
  cbn [fst snd buffer index]. repeat split.
  unfold size in *. cbn [buffer]. rewrite length_insert, length_drop. lia.
Qed.

(** X3: with [buffer_size = 0] every append of a well-formed record
    raises [IndexError] (the slot assignment on an empty list), and the
    trimming before it has emptied the buffer. *)
Theorem append_to_zero_capacity_raises self (h : heap) req n l :
  buffer_size self = 0%Z ->
  Forall (storable h req n) (buffer self) -> storable h req n l ->
  let out := append self (ArgObj l) req h in
  snd out = Raise IndexError /\ buffer (snd (fst out)) = [].
Proof.
  intros Hz Hb Hl.
  destruct (append_via_place self h req n l Hb Hl) as (h' & _ & Hb' & Hl' & E).
  cbn zeta. rewrite E, (place_zero_capacity self l h' req n Hz Hb' Hl').
  split; reflexivity.
Qed.

(** X4: with a negative [buffer_size] the slice of line 129 empties the
    buffer at every append and the record is appended to it: the store
    holds the newest record only and every append returns 0. *)
Theorem append_to_negative_capacity_keeps_one self (h : heap) req n l :
  (buffer_size self < 0)%Z ->
  Forall (storable h req n) (buffer self) -> storable h req n l ->
  let out := append self (ArgObj l) req h in
  snd out = Ok 0%Z /\ buffer (snd (fst out)) = [l].
Proof.
  intros Hz Hb Hl.
  destruct (append_via_place self h req n l Hb Hl) as (h' & _ & Hb' & Hl' & E).
  cbn zeta. rewrite E, (place_negative_capacity self l h' req n Hz Hb' Hl').
  split; reflexivity.
Qed.

(** X5: a [Transition] lacking one of the required keys is refused with
    [RuntimeError] before [to] is called: neither the heap (the record is
    not migrated) nor the store changes. *)
Theorem append_missing_required_keys self (h : heap) req l tr :
  get_transition h l = Ok tr -> has_keys tr req = false ->
  append self (ArgObj l) req h = (h, self, Raise RuntimeError).
Proof.
  intros Ht Hk. unfold append, resolve, ret. rewrite Ht, Hk. reflexivity.
Qed.

Lemma dict_get_none d k : mem k (dict_keys d) = false -> dict_get d k = None.
Proof.
  induction d as [| [k' v] d IH]; cbn; [reflexivity |].
  intros H. apply orb_false_iff in H as [H1 H2]. rewrite H1. apply IH, H2.
Qed.

(** X6: a plain mapping without one of [state], [action], [next_state],
    [reward], [terminal] cannot be turned into a [Transition]: [append]
    raises [TypeError], and neither the heap nor the store changes. *)
Theorem append_dict_missing_field self (h : heap) req d :
  forallb (fun k => mem k (dict_keys d)) base_keys = false ->
  append self (ArgDict d) req h = (h, self, Raise TypeError).
Proof.
  intros Hm. unfold append, resolve, init_from_dict.
  cbn in Hm.
  destruct (mem "state" (dict_keys d)) eqn:E1;
    [| rewrite (dict_get_none _ _ E1); reflexivity].
  destruct (mem "action" (dict_keys d)) eqn:E2;
    [| rewrite (dict_get_none _ _ E2); destruct (dict_get d "state"); reflexivity].
  destruct (mem "next_state" (dict_keys d)) eqn:E3;
    [| rewrite (dict_get_none _ _ E3);
       destruct (dict_get d "state"), (dict_get d "action"); reflexivity].
  destruct (mem "reward" (dict_keys d)) eqn:E4;
    [| rewrite (dict_get_none _ _ E4);
       destruct (dict_get d "state"), (dict_get d "action"),
         (dict_get d "next_state"); reflexivity].
  destruct (mem "terminal" (dict_keys d)) eqn:E5; [discriminate Hm |].
  rewrite (dict_get_none _ _ E5).
  destruct (dict_get d "state"), (dict_get d "action"),
    (dict_get d "next_state"), (dict_get d "reward"); reflexivity.
Qed.

Lemma place_sound self l (h : heap) self' pos :
  within_capacity self ->
  place self l h = (self', Ok pos) ->
  within_capacity self' /\
  buffer_size self' = buffer_size self /\
  buffer_device self' = buffer_device self /\
  main_attrs self' = main_attrs self /\
  (0 <= pos < size self')%Z /\
  buffer self' = <[Z.to_nat pos := l]> (buffer self ++
                    (if (size self <? buffer_size self)%Z then [l] else [])).
Proof.
  intros (Hcap & Hsz & Hidx) E. unfold place in E.
  destruct (if (size self =? 0)%Z then _ else _) as [[|]|e]; try discriminate E.
  destruct (Z.ltb_spec (buffer_size self) (size self)); [lia |].
  destruct (Z.eqb_spec (size self) (buffer_size self)) as [Hfull | Hroom].
  - unfold list_setitem, norm_index in E.
    destruct (Z.leb_spec 0 (index self)); [| lia].
    unfold size in *.
    destruct (Z.ltb_spec (index self) (Z.of_nat (length (buffer self)))); [| lia].
    injection E as <- <-. unfold set_index, set_buffer.
    cbn [buffer_size buffer_device main_attrs buffer index].
    destruct (Z.ltb_spec (Z.of_nat (length (buffer self))) (buffer_size self)); [lia |].
    rewrite app_nil_r.
    unfold within_capacity, size. cbn [buffer_size buffer index].
    rewrite !length_insert.
    pose proof (Z.mod_pos_bound (index self + 1) (buffer_size self) Hcap).
    repeat split; lia.
  - injection E as <- <-. unfold size in *. unfold set_buffer.
    cbn [buffer_size buffer_device main_attrs buffer index].
    destruct (Z.ltb_spec (Z.of_nat (length (buffer self))) (buffer_size self)); [| lia].
    unfold within_capacity, size. cbn [buffer_size buffer index].
    rewrite !length_app. cbn [length].
    repeat split; try lia.
    replace (Z.to_nat (Z.of_nat (length (buffer self) + 1) - 1)) with (length (buffer self) + 0)%nat by lia.
    rewrite insert_app_r. reflexivity.
Qed.

Lemma place_failure self l (h : heap) self' e :
  within_capacity self -> place self l h = (self', Raise e) -> self' = self.
Proof.
  intros (Hcap & Hsz & Hidx) E. unfold place in E.
  destruct (if (size self =? 0)%Z then _ else _) as [[|]|e'];
    try (injection E as <- _; reflexivity).
  destruct (Z.ltb_spec (buffer_size self) (size self)); [lia |].
  destruct (Z.eqb_spec (size self) (buffer_size self)) as [Hfull | Hroom];
    [| discriminate E].
  unfold list_setitem, norm_index in E.
  destruct (Z.leb_spec 0 (index self)); [| lia].
  unfold size in *.
  destruct (Z.ltb_spec (index self) (Z.of_nat (length (buffer self)))); [| lia].
  discriminate E.
Qed.

(** What [append] does, whatever the argument. *)
Lemma append_cases self a req (h : heap) :
  let out := append self a req h in
  (exists e, snd out = Raise e /\ snd (fst out) = self) \/
  (exists l, snd (fst out) = fst (place self l (fst (fst out))) /\
             snd out = snd (place self l (fst (fst out))) /\
             (forall l', a = ArgObj l' -> l = l')).
Proof.
  cbn zeta. unfold append.
  destruct (resolve a h) as [h1 [l | e]] eqn:Er; [| left; eauto].
  destruct (get_transition h1 l) as [tr | e]; [| left; eauto].
  destruct (has_keys tr req); cbn [negb]; [| left; eauto].
  destruct (to l (buffer_device self) h1) as [h2 [u | e]]; [| left; eauto].
  right. exists l. destruct (place self l h2) as [self' r] eqn:Ep.
  cbn [fst snd]. rewrite Ep. repeat split.
  intros l' ->. cbn in Er. injection Er as _ <-. reflexivity.
Qed.

(** X7: whatever is appended, and whether or not the call succeeds, a
    store with positive capacity, at most [buffer_size] records and its
    cursor in [0, buffer_size) stays so; capacity, device and main
    attributes never change. *)
Theorem append_keeps_store_within_capacity self a req (h : heap) :
  within_capacity self ->
  let self' := snd (fst (append self a req h)) in
  within_capacity self' /\
  buffer_size self' = buffer_size self /\
  buffer_device self' = buffer_device self /\
  main_attrs self' = main_attrs self.
Proof.
  intros Hw. cbn zeta.
  destruct (append_cases self a req h) as [(e & _ & ->) | (l & -> & _ & _)];
    [auto |].
  destruct (place self l _) as [self' [pos | e]] eqn:Ep.
  - destruct (place_sound _ _ _ _ _ Hw Ep) as (? & ? & ? & ? & _). auto.
  - rewrite (place_failure _ _ _ _ _ Hw Ep). auto.
Qed.

(** X8: on a store within its capacity, an [append] that raises, for
    whatever reason and whatever the argument, leaves the buffer, the
    cursor and the settings exactly as they were. *)
Theorem append_failure_keeps_store self a req (h : heap) e :
  within_capacity self ->
  snd (append self a req h) = Raise e ->
  snd (fst (append self a req h)) = self.
Proof.
  intros Hw Hr.
  destruct (append_cases self a req h) as [(e' & _ & ->) | (l & -> & Hs & _)];
    [reflexivity |].
  rewrite Hs in Hr.
  destruct (place self l _) as [self' r] eqn:Ep. cbn [fst snd] in *. subst r.
  apply (place_failure _ _ _ _ _ Hw Ep).
Qed.

(** X9: on a store within its capacity, the position returned by a
    successful [append] is a valid index at which the buffer now holds the
    appended record; every other slot is unchanged, and the size grows by
    one exactly when the store was not full. *)
Theorem append_position_holds_record self l req (h : heap) pos :
  within_capacity self ->
  snd (append self (ArgObj l) req h) = Ok pos ->
  let self' := snd (fst (append self (ArgObj l) req h)) in
  (0 <= pos < size self')%Z /\
  buffer self' !! Z.to_nat pos = Some l /\
  (forall j, j <> Z.to_nat pos -> (j < length (buffer self))%nat ->
     buffer self' !! j = buffer self !! j) /\
  size self' = (if (size self <? buffer_size self)%Z then size self + 1
                else size self)%Z.
Proof.
  intros Hw Hr. cbn zeta.
  destruct (append_cases self (ArgObj l) req h)
    as [(e' & He & _) | (l' & -> & Hs & Hl)]; [congruence |].
  rewrite (Hl l eq_refl) in *. rewrite Hs in Hr.
  destruct (place self l _) as [self' r] eqn:Ep. cbn [fst snd] in *. subst r.
  destruct (place_sound _ _ _ _ _ Hw Ep) as (_ & _ & _ & _ & Hpos & Hb).
  split; [exact Hpos |].
  assert (Hlt : (Z.to_nat pos < length (buffer self ++
            (if (size self <? buffer_size self)%Z then [l] else [])))%nat).
  { unfold size in Hpos. rewrite Hb, length_insert in Hpos. lia. }
  split; [rewrite Hb; apply list_lookup_insert_eq; exact Hlt |].
  split.
  - intros j Hj Hjl. rewrite Hb, list_lookup_insert_ne by congruence.
    apply lookup_app_l. exact Hjl.
  - unfold size. rewrite Hb, length_insert, length_app. unfold size.
    destruct (Z.of_nat (length (buffer self)) <? buffer_size self)%Z;
      cbn [length]; lia.
Qed.

Lemma clear_within_capacity self :
  within_capacity self -> within_capacity (clear self).
Proof.
  intros (? & ? & ?). unfold within_capacity, clear, size. cbn. lia.
Qed.

(** X10: the store rebuilt from [__reduce__] has the same capacity,
    device and main attributes but no records and its cursor at 0; it
    equals the original exactly when the original was empty with its
    cursor at 0. *)
Theorem pickling_keeps_settings_only (self : ReplayBuffer.t) :
  let self' := rebuild (__reduce__ self) in
  buffer_size self' = buffer_size self /\
  buffer_device self' = buffer_device self /\
  main_attrs self' = main_attrs self /\
  size self' = 0%Z /\ index self' = 0%Z /\
  (self' = self <-> buffer self = [] /\ index self = 0%Z).
Proof.
  destruct self as [bs dev b i m]. cbn.
  do 5 (split; [reflexivity |]). split.
  - intros [= <- <-]. auto.
  - intros [-> ->]. reflexivity.
Qed.

(** Heaps that grow by one object. *)






(** X12: after [clear()] the next append of any well-formed record,
    whatever its number of fields, goes to position 0 of an otherwise
    empty buffer, and the write cursor still has the value it had before
    [clear()]. *)
Theorem append_after_clear_refills_from_zero self (h : heap) req n l :
  (0 < buffer_size self)%Z ->
  storable h req n l ->
  let out := append (clear self) (ArgObj l) req h in
  snd out = Ok 0%Z /\
  buffer (snd (fst out)) = [l] /\
  index (snd (fst out)) = index self.
Proof.
  intros Hcap Hl.
  destruct (append_below (clear self) h req n l) as (h' & _ & E);
    [exact Hcap | apply List.Forall_nil | exact Hl |].
  cbn zeta. rewrite E. repeat split.
Qed.

(** *** The facts above, on the stores of [Examples] *)

Ltac storable_here := split; vm_compute; reflexivity.

Ltac all_storable :=
  repeat (apply List.Forall_cons; [storable_here |]);
  apply List.Forall_nil.

Ltac fresh_store_within_capacity :=
  unfold within_capacity, size, ReplayBuffer.init; cbn; lia.

Lemma ring_holds_most_recent_witness :
  size (snd (fst (append_all (ReplayBuffer.init (Z.of_nat 2) "cpu" None) six_steps
                    (map ArgObj [R1; R2; R3; R4; R5]) default_required_keys)))
  = Z.of_nat (min 5 2).
Proof.
  refine (proj1 (proj2 (ring_holds_most_recent 2 "cpu" None
            default_required_keys six_steps [R1; R2; R3; R4; R5] _ _ _))).
  - lia.
  - all_records.
  - one_schema.
Defined.

Lemma append_trims_oversized_store_witness :
  snd (append oversized_store (ArgObj R4) default_required_keys six_steps)
  = Ok 0%Z.
Proof.
  refine (proj1 (append_trims_oversized_store oversized_store six_steps
            default_required_keys 5 R4 _ _ _ _)).
  - unfold oversized_store, size. cbn. lia.
  - unfold oversized_store. cbn. lia.
  - all_storable.
  - storable_here.
Defined.

Lemma append_to_zero_capacity_raises_witness :
  snd (append (ReplayBuffer.init 0 "cpu" None) (ArgObj R1)
         default_required_keys six_steps) = Raise IndexError.
Proof.
  refine (proj1 (append_to_zero_capacity_raises (ReplayBuffer.init 0 "cpu" None)
            six_steps default_required_keys 5 R1 _ _ _)).
  - reflexivity.
  - all_storable.
  - storable_here.
Defined.

Lemma append_to_negative_capacity_keeps_one_witness :
  buffer (snd (fst (append (ReplayBuffer.mk (-1) "cpu" [R1] 0 default_main_attrs)
                      (ArgObj R2) default_required_keys six_steps))) = [R2].
Proof.
  refine (proj2 (append_to_negative_capacity_keeps_one
            (ReplayBuffer.mk (-1) "cpu" [R1] 0 default_main_attrs)
            six_steps default_required_keys 5 R2 _ _ _)).
  - cbn. lia.
  - all_storable.
  - storable_here.
Defined.

Lemma append_missing_required_keys_witness :
  append (ReplayBuffer.init 3 "cpu" None) (ArgObj R1) ["state"; "log_prob"]
    six_steps
  = (six_steps, ReplayBuffer.init 3 "cpu" None, Raise RuntimeError).
Proof.
  eapply append_missing_required_keys; [vm_compute; reflexivity | reflexivity].
Defined.

Lemma append_dict_missing_field_witness :
  append (ReplayBuffer.init 3 "cpu" None)
    (ArgDict [("state", VRef 0%nat); ("action", VRef 1%nat)])
    default_required_keys two_rows
  = (two_rows, ReplayBuffer.init 3 "cpu" None, Raise TypeError).
Proof.
  apply append_dict_missing_field. reflexivity.
Defined.


Lemma append_keeps_store_within_capacity_witness :
  within_capacity
    (snd (fst (append (ReplayBuffer.init 3 "cpu" None) (ArgObj R1)
                 default_required_keys six_steps))).
Proof.
  refine (proj1 (append_keeps_store_within_capacity
            (ReplayBuffer.init 3 "cpu" None) (ArgObj R1)
            default_required_keys six_steps _)).
  fresh_store_within_capacity.
Defined.

Lemma append_failure_keeps_store_witness :
  snd (fst (append (ReplayBuffer.init 3 "cpu" None) (ArgObj R1) ["log_prob"]
              six_steps)) = ReplayBuffer.init 3 "cpu" None.
Proof.
  apply (append_failure_keeps_store (ReplayBuffer.init 3 "cpu" None)
           (ArgObj R1) ["log_prob"] six_steps RuntimeError).
  - fresh_store_within_capacity.
  - vm_compute. reflexivity.
Defined.

Lemma append_position_holds_record_witness :
  buffer (snd (fst (append (ReplayBuffer.init 3 "cpu" None) (ArgObj R1)
                      default_required_keys six_steps))) !! Z.to_nat 0
  = Some R1.
Proof.
  refine (proj1 (proj2 (append_position_holds_record
            (ReplayBuffer.init 3 "cpu" None) R1 default_required_keys
            six_steps 0%Z _ _))).
  - fresh_store_within_capacity.
  - vm_compute. reflexivity.
Defined.

Lemma append_after_clear_refills_from_zero_witness :
  index (snd (fst (append (clear (snd used_store)) (ArgObj R4)
                     default_required_keys (fst used_store))))
  = index (snd used_store).
Proof.
  refine (proj2 (proj2 (append_after_clear_refills_from_zero (snd used_store)
            (fst used_store) default_required_keys 5 R4 _ _))).
  - vm_compute. reflexivity.
  - storable_here.
Defined.

End StoreFacts.

(** ** Records: migration and construction *)

Module RecordFacts.
Import Transition TransitionOps ReplayBuffer Migration Runs Shapes Examples.
Import HeapFacts TransitionFacts BufferFacts.

Lemma to_dev_twice dev dev' v : to_dev dev (to_dev dev' v) = to_dev dev v.
Proof. destruct v; reflexivity. Qed.

Lemma migrate_obj_twice dev dev' o :
  migrate_obj dev (migrate_obj dev' o) = migrate_obj dev o.
Proof.
  destruct o as [d | tr]; cbn.
  - unfold migrate_dict_entries. rewrite map_map. f_equal. apply map_ext.
    intros [k v]. cbn. rewrite to_dev_twice. reflexivity.
  - destruct tr; cbn. rewrite to_dev_twice. reflexivity.
Qed.

Lemma migrate_cells_twice dev dev' cs (h : heap) :
  migrate_cells dev cs (migrate_cells dev' cs h) = migrate_cells dev cs h.
Proof.
  apply list_eq. intros c. rewrite !lookup_migrate_cells.
  destruct (h !! c) as [o |]; [cbn | reflexivity].
  destruct (bool_decide (c ∈ cs)); [| reflexivity].
  rewrite migrate_obj_twice. reflexivity.
Qed.

Lemma to_again dev dev' (h : heap) req l tr :
  get_transition h l = Ok tr -> valid_record h req l = true ->
  to l dev (migrate_cells dev' (cells tr l) h) =
    (migrate_cells dev (cells tr l) h, Ok tt).
Proof.
  intros Ht Hv.
  pose proof (get_transition_migrate dev' (cells tr l) h l) as Ht'.
  rewrite Ht in Ht'.
  assert (Hin : l ∈ cells tr l).
  { unfold cells. rewrite !elem_of_app, elem_of_cons. auto. }
  rewrite bool_decide_eq_true_2 in Ht' by exact Hin.
  rewrite (to_spec dev _ req l _ Ht')
    by (rewrite valid_record_migrate; exact Hv).
  replace (cells (set_reward (to_dev dev' (reward tr)) tr) l) with (cells tr l)
    by (destruct tr; reflexivity).
  rewrite migrate_cells_twice. reflexivity.
Qed.

(** X13: on a well-formed record [to(device)] succeeds, and calling it a
    second time with the same device changes nothing. *)
Theorem to_is_idempotent dev (h : heap) req l :
  valid_record h req l = true ->
  snd (to l dev h) = Ok tt /\
  to l dev (fst (to l dev h)) = (fst (to l dev h), Ok tt).
Proof.
  intros Hv. destruct (valid_record_transition _ _ _ Hv) as (tr & Ht & _).
  rewrite (to_spec dev h req l tr Ht Hv). cbn [fst snd]. split; [reflexivity |].
  apply (to_again dev dev h req l tr Ht Hv).
Qed.

Lemma cells_have_objects (h : heap) req l tr c :
  get_transition h l = Ok tr -> valid_record h req l = true ->
  c ∈ cells tr l -> exists o, h !! c = Some o.
Proof.
  intros Ht Hv Hc. unfold valid_record in Hv. rewrite Ht in Hv.
  repeat (apply andb_prop in Hv as [Hv ?]).
  destruct (valid_dict_at_inv _ _ H1) as (ls & ds & Es & Hs & _).
  destruct (valid_dict_at_inv _ _ H0) as (la & da & Ea & Ha & _).
  destruct (valid_dict_at_inv _ _ H) as (ln & dn & En & Hn & _).
  unfold cells in Hc. rewrite Es, Ea, En in Hc. cbn in Hc.
  rewrite !elem_of_cons, elem_of_nil in Hc.
  destruct Hc as [-> | [-> | [-> | [-> | []]]]]; eauto.
  eexists. apply get_transition_inv. exact Ht.
Qed.

(** X14: after [to(device)] on a well-formed record, every tensor of its
    three dictionaries and its reward is on the device; the heap keeps its
    size, every record keeps its keys, length and well-formedness, and no
    object outside the record's own cells is touched. *)
Theorem to_moves_every_tensor dev (h : heap) req l :
  valid_record h req l = true ->
  let h' := fst (to l dev h) in
  record_on_device h' dev l = true /\
  length h' = length h /\
  same_records h h' /\
  (forall tr c, get_transition h l = Ok tr -> c ∉ cells tr l -> h' !! c = h !! c).
Proof.
  intros Hv. destruct (valid_record_transition _ _ _ Hv) as (tr & Ht & _).
  cbn zeta. rewrite (to_spec dev h req l tr Ht Hv). cbn [fst].
  split; [| split; [apply length_migrate_cells | split]].
  - unfold record_on_device. rewrite get_transition_migrate, Ht.
    assert (Hin : l ∈ cells tr l).
    { unfold cells. rewrite !elem_of_app, elem_of_cons. auto. }
    rewrite bool_decide_eq_true_2 by exact Hin.
    replace (cells (set_reward (to_dev dev (reward tr)) tr) l) with (cells tr l)
      by (destruct tr; reflexivity).
    apply forallb_forall. intros c Hc. apply list_elem_of_In in Hc.
    destruct (cells_have_objects h req l tr c Ht Hv Hc) as (o & Ho).
    rewrite (migrate_cells_inside dev _ h c o Hc Ho). apply on_device_migrate.
  - apply same_records_migrate.
  - intros tr' c Ht' Hc. rewrite Ht in Ht'. injection Ht' as <-.
    apply migrate_cells_outside. exact Hc.
Qed.

(** X15: moving a well-formed record that sits on [dev] to another device
    and back restores the heap exactly: [to] changes devices and nothing
    else. *)
Theorem to_there_and_back dev dev' (h : heap) req l :
  valid_record h req l = true ->
  record_on_device h dev l = true ->
  fst (to l dev (fst (to l dev' h))) = h.
Proof.
  intros Hv Hd. destruct (valid_record_transition _ _ _ Hv) as (tr & Ht & _).
  rewrite (to_spec dev' h req l tr Ht Hv). cbn [fst].
  rewrite (to_again dev dev' h req l tr Ht Hv). cbn [fst].
  apply list_eq. intros c. rewrite lookup_migrate_cells.
  destruct (h !! c) as [o |] eqn:Ho; [cbn | reflexivity].
  destruct (bool_decide (c ∈ cells tr l)) eqn:Ec; [| reflexivity].
  apply bool_decide_eq_true_1 in Ec.
  unfold record_on_device in Hd. rewrite Ht, forallb_forall in Hd.
  apply list_elem_of_In in Ec. specialize (Hd c Ec). rewrite Ho in Hd.
  apply migrate_on_device in Hd. rewrite Hd. reflexivity.
Qed.

(** The loop stops at the first value without a [to] method. *)
Lemma migrate_items_stops dev l k v rest : forall items done h,
  h !! l = Some (ODict (migrate_dict_entries dev done ++ items ++ (k, v) :: rest)) ->
  forallb is_tensor (dict_values items) = true ->
  is_tensor v = false ->
  nodup_keys (dict_keys (done ++ items)) = true ->
  migrate_items l dev (items ++ (k, v) :: rest) h =
    (<[l := ODict (migrate_dict_entries dev (done ++ items) ++ (k, v) :: rest)]> h,
     Raise AttributeError).
Proof.
  induction items as [| [k1 v1] items IH]; intros done h Hl Ht Hv Hn.
  - rewrite app_nil_r in *. cbn [app] in *.
    rewrite list_insert_id by exact Hl.
    cbn [migrate_items]. unfold bind, lift.
    destruct v; try discriminate Hv; reflexivity.
  - cbn in Ht. apply andb_prop in Ht as [Hv1 Ht].
    cbn [app migrate_items]. unfold bind, lift, read, store.
    rewrite (value_to_tensor _ _ Hv1). cbn [get_dict]. rewrite Hl.
    assert (Hk : mem k1 (dict_keys (migrate_dict_entries dev done)) = false).
    { clear -Hn. unfold dict_keys, migrate_dict_entries. rewrite map_map. cbn.
      induction done as [| [k2 v2] done IH]; cbn in *; [reflexivity |].
      apply andb_prop in Hn as [H1 H2].
      unfold dict_keys in *. rewrite map_app in H1. cbn in H1.
      apply orb_false_iff. split.
      - destruct (String.eqb k1 k2) eqn:E; [| reflexivity].
        apply String.eqb_eq in E. subst k2.
        apply negb_true_iff in H1.
        assert (mem k1 (map fst done ++ k1 :: map fst items) = true) as C.
        { apply mem_spec, in_or_app. right. left. reflexivity. }
        congruence.
      - apply IH. exact H2. }
    cbn [app]. rewrite (dict_set_fresh _ _ _ _ _ Hk).
    specialize (IH (done ++ [(k1, v1)])
      (<[l:=ODict (migrate_dict_entries dev done ++ (k1, to_dev dev v1) :: items ++ (k, v) :: rest)]> h)).
    rewrite <- !app_assoc in IH. cbn in IH.
    rewrite IH.
    + rewrite list_insert_insert_eq. reflexivity.
    + rewrite list_lookup_insert_eq by (eapply lookup_lt_Some; eauto).
      unfold migrate_dict_entries. rewrite map_app. cbn. rewrite <- app_assoc. reflexivity.
    + exact Ht.
    + exact Hv.
    + exact Hn.
Qed.

(** X16: when the [state] dictionary holds a value without a [to] method
    (a number, a string, [None]), [to] raises [AttributeError] at that
    entry; the entries before it have already been moved and stay moved,
    the entries after it, the other dictionaries and the reward are
    untouched. *)
Theorem to_stops_at_first_non_tensor dev (h : heap) l tr ls done k v rest :
  get_transition h l = Ok tr ->
  state tr = VRef ls ->
  h !! ls = Some (ODict (done ++ (k, v) :: rest)) ->
  valid_dict done = true ->
  is_tensor v = false -> (forall l', v <> VRef l') ->
  to l dev h =
    (<[ls := ODict (migrate_dict_entries dev done ++ (k, v) :: rest)]> h,
     Raise AttributeError).
Proof.
  intros Ht Es Hs Hd Hv _. apply andb_prop in Hd as [Hdt Hdn].
  unfold to, bind, read. rewrite Ht, Es.
  unfold migrate_dict, bind, read. cbn [get_dict]. rewrite Hs.
  rewrite (migrate_items_stops dev ls k v rest done [] h); rewrite ?app_nil_l, ?app_nil_r;
    auto.
Qed.

(** *** The constructor *)

Lemma dict_get_some d k : mem k (dict_keys d) = true -> exists v, dict_get d k = Some v.
Proof.
  induction d as [| [k' v] d IH]; cbn; [discriminate |].
  destruct (String.eqb k k'); [eauto | exact IH].
Qed.

(** X17: a successful construction allocates exactly one object, at the
    next free location; its length equals the number of its keys, its keys
    are the five fields followed by the keyword names, subscripting with a
    field name returns the constructor's argument, and every key that
    [has_keys] reports can be subscripted. *)
Theorem constructed_record_fields (h h' : heap) s a n r tm kwargs l :
  TransitionOps.init s a n r tm kwargs h = (h', Ok l) ->
  exists tr,
    h' = h ++ [OTransition tr] /\ l = length h /\
    get_transition h' l = Ok tr /\
    len tr = Z.of_nat (length (keys tr)) /\
    keys tr = base_keys ++ dict_keys kwargs /\
    getitem tr "state" = Ok s /\ getitem tr "action" = Ok a /\
    getitem tr "next_state" = Ok n /\ getitem tr "reward" = Ok r /\
    getitem tr "terminal" = Ok tm /\
    (forall ks, has_keys tr ks = true ->
       forall k, In k ks -> is_ok (getitem tr k) = true).
Proof.
  unfold TransitionOps.init, bind, read, alloc.
  destruct (_check_input h _) as [[] | e]; [| discriminate].
  intros [= <- <-]. eexists. split; [reflexivity |]. split; [reflexivity |].
  split; [unfold get_transition; rewrite lookup_app_r, Nat.sub_diag by lia; reflexivity |].
  split; [unfold len, keys; cbn [_length _keys length]; unfold dict_keys;
          rewrite length_map; lia |].
  repeat (split; [reflexivity |]).
  intros ks Hk k Hin. unfold has_keys in Hk. rewrite forallb_forall in Hk.
  specialize (Hk k Hin). cbn [_keys] in Hk. unfold getitem. cbn [state action next_state reward terminal extras].
  repeat (match goal with |- context [String.eqb k ?x] =>
            destruct (String.eqb_spec k x); [reflexivity |] end).
  assert (Hm : mem k (dict_keys kwargs) = true).
  { apply mem_spec. apply mem_spec in Hk. cbn [In] in Hk.
    destruct Hk as [E | [E | [E | [E | [E | Hb]]]]];
      try (symmetry in E; contradiction); exact Hb. }
  destruct (dict_get_some _ _ Hm) as (v & ->). reflexivity.
Qed.

(** X18: with dictionaries of tensors, a reward that is neither a float
    nor a tensor (an [int], a [bool], [None], a string) makes construction
    fail with [AttributeError], from reading [reward.shape], not with the
    [RuntimeError] written for a bad reward type; nothing is allocated. *)
Theorem reward_without_shape_is_attribute_error (h : heap) s a n r tm kwargs ds da dn :
  get_dict h s = Ok ds -> get_dict h a = Ok da -> get_dict h n = Ok dn ->
  any_not_tensor (dict_values ds ++ dict_values da ++ dict_values dn) = false ->
  (forall x, r <> VFloat x) -> is_tensor r = false ->
  TransitionOps.init s a n r tm kwargs h = (h, Raise AttributeError).
Proof.
  intros Es Ea En Ht Hf Hr.
  destruct (tensors_have_shapes _ Ht) as (shapes & Esh).
  rewrite !any_not_tensor_app in Ht.
  apply orb_false_iff in Ht as [Ts Ht]. apply orb_false_iff in Ht as [Ta Tn].
  unfold TransitionOps.init, bind, read, _check_input, values_of.
  cbn [state action next_state reward]. rewrite Es, Ea, En. cbn [rbind].
  rewrite Ts, Ta, Tn, Esh. cbn [rbind].
  destruct r; try discriminate Hr; try reflexivity.
  exfalso. eapply Hf. reflexivity.
Qed.

Lemma leading_index_error shapes :
  In [] shapes -> mapR leading shapes = Raise IndexError.
Proof.
  induction shapes as [| s shapes IH]; [intros [] |].
  intros [-> | Hin]; [reflexivity |].
  cbn. destruct s; [reflexivity |]. cbn. rewrite (IH Hin). reflexivity.
Qed.

Lemma shape_of_in vs shapes x :
  mapR shape_of vs = Ok shapes -> In (VTensor x) vs -> In (shape x) shapes.
Proof.
  revert shapes. induction vs as [| v vs IH]; intros shapes E; [intros [] |].
  cbn in E. destruct (shape_of v) as [s |] eqn:Ev; [cbn in E | discriminate E].
  destruct (mapR shape_of vs) as [ss |]; [cbn in E | discriminate E].
  injection E as <-. intros [-> | Hin].
  - cbn in Ev. injection Ev as <-. left. reflexivity.
  - right. apply IH; auto.
Qed.

(** X19: with an acceptable reward, a zero-dimensional array anywhere in
    [state], [action] or [next_state] makes construction fail with
    [IndexError], from [s[0]] on an empty shape; nothing is allocated. *)
Theorem zero_dimensional_array_is_index_error (h : heap) s a n r tm kwargs ds da dn x :
  get_dict h s = Ok ds -> get_dict h a = Ok da -> get_dict h n = Ok dn ->
  any_not_tensor (dict_values ds ++ dict_values da ++ dict_values dn) = false ->
  is_ok (reward_batch_size r) = true ->
  In (VTensor x) (dict_values ds ++ dict_values da ++ dict_values dn) ->
  shape x = [] ->
  TransitionOps.init s a n r tm kwargs h = (h, Raise IndexError).
Proof.
  intros Es Ea En Ht Hr Hin Hx.
  destruct (tensors_have_shapes _ Ht) as (shapes & Esh).
  pose proof (shape_of_in _ _ _ Esh Hin) as Hs. rewrite Hx in Hs.
  rewrite !any_not_tensor_app in Ht.
  apply orb_false_iff in Ht as [Ts Ht]. apply orb_false_iff in Ht as [Ta Tn].
  unfold TransitionOps.init, bind, read, _check_input, values_of.
  cbn [state action next_state reward]. rewrite Es, Ea, En. cbn [rbind].
  rewrite Ts, Ta, Tn, Esh. cbn [rbind].
  destruct (reward_batch_size r) as [b | e]; [| discriminate Hr]. cbn [rbind].
  rewrite (leading_index_error _ Hs). reflexivity.
Qed.

(** *** The facts above, on the records of [Examples] *)

Lemma to_is_idempotent_witness :
  to R1 "cpu" (fst (to R1 "cpu" six_steps)) = (fst (to R1 "cpu" six_steps), Ok tt).
Proof.
  refine (proj2 (to_is_idempotent "cpu" six_steps default_required_keys R1 _)).
  vm_compute. reflexivity.
Defined.

Lemma to_moves_every_tensor_witness :
  record_on_device (fst (to R1 "cpu" six_steps)) "cpu" R1 = true.
Proof.
  refine (proj1 (to_moves_every_tensor "cpu" six_steps default_required_keys R1 _)).
  vm_compute. reflexivity.
Defined.

Lemma to_there_and_back_witness :
  fst (to R1 "cuda:0" (fst (to R1 "cpu" six_steps))) = six_steps.
Proof.
  apply (to_there_and_back "cuda:0" "cpu" six_steps default_required_keys R1).
  - vm_compute. reflexivity.
  - vm_compute. reflexivity.
Defined.

Lemma to_stops_at_first_non_tensor_witness :
  to 3%nat "cuda:0" tampered =
    (<[0%nat := ODict [("state", zeros [1; 4]%nat "cuda:0"); ("note", VStr "x");
                       ("depth", zeros [1; 4]%nat "cpu")]]> tampered,
     Raise AttributeError).
Proof.
  apply (to_stops_at_first_non_tensor "cuda:0" tampered 3%nat
           (Transition.mk 5 base_keys (VRef 0%nat) (VRef 1%nat) (VRef 2%nat)
              (VFloat 1%Q) (VBool false) [])
           0%nat [("state", zeros [1; 4]%nat "cpu")] "note" (VStr "x")
           [("depth", zeros [1; 4]%nat "cpu")]);
    try reflexivity.
  intros l'. discriminate.
Defined.

Lemma constructed_record_fields_witness :
  exists tr, len tr = Z.of_nat (length (keys tr)) /\
             keys tr = base_keys ++ ["log_prob"].
Proof.
  destruct (constructed_record_fields two_rows
              (fst (TransitionOps.init (VRef 0%nat) (VRef 1%nat) (VRef 2%nat)
                      (zeros [2; 1]%nat "cpu") (VBool false)
                      [("log_prob", VFloat 0%Q)] two_rows))
              (VRef 0%nat) (VRef 1%nat) (VRef 2%nat) (zeros [2; 1]%nat "cpu")
              (VBool false) [("log_prob", VFloat 0%Q)] 3%nat)
    as (tr & _ & _ & _ & Hlen & Hkeys & _).
  { vm_compute. reflexivity. }
  exists tr. split; [exact Hlen | exact Hkeys].
Defined.

Lemma reward_without_shape_is_attribute_error_witness :
  TransitionOps.init (VRef 0%nat) (VRef 1%nat) (VRef 2%nat) (VInt 0)
    (VBool false) [] two_rows = (two_rows, Raise AttributeError).
Proof.
  eapply reward_without_shape_is_attribute_error;
    try reflexivity.
  intros x. discriminate.
Defined.

Lemma zero_dimensional_array_is_index_error_witness :
  TransitionOps.init (VRef 0%nat) (VRef 1%nat) (VRef 2%nat) (VFloat 1%Q)
    (VBool false) [] scalar_state = (scalar_state, Raise IndexError).
Proof.
  eapply (zero_dimensional_array_is_index_error scalar_state (VRef 0%nat)
            (VRef 1%nat) (VRef 2%nat) (VFloat 1%Q) (VBool false) [] _ _ _
            (mkTensor [] "cpu" [0%Q]));
    try reflexivity.
  left. reflexivity.
Defined.

End RecordFacts.

(** ** Sampling *)

Module SamplingFacts.
Import Transition TransitionOps ReplayBuffer Migration Runs Shapes Examples.
Import HeapFacts TransitionFacts BufferFacts.

Lemma mapR_ok_inv {A B} (f : A -> result B) l bs :
  mapR f l = Ok bs -> Forall2 (fun a b => f a = Ok b) l bs.
Proof.
  revert bs. induction l as [| a l IH]; intros bs E; cbn in E.
  - injection E as <-. constructor.
  - destruct (f a) as [b |] eqn:Ea; [cbn in E | discriminate E].
    destruct (mapR f l) as [bs' |]; [cbn in E | discriminate E].
    injection E as <-. constructor; auto.
Qed.

Lemma mapR_length {A B} (f : A -> result B) l bs :
  mapR f l = Ok bs -> length bs = length l.
Proof. intros E. symmetry. eapply Forall2_length, mapR_ok_inv, E. Qed.

Lemma mapR_all_ok {A B} (f : A -> result B) (g : A -> B) l :
  (forall a, In a l -> f a = Ok (g a)) -> mapR f l = Ok (map g l).
Proof.
  induction l as [| a l IH]; intros H; [reflexivity |].
  cbn. rewrite (H a) by (left; reflexivity). cbn.
  rewrite IH by (intros; apply H; right; assumption). reflexivity.
Qed.

(** *** The sampling strategies *)

Lemma remove_at_perm {A} (pop : list A) j a :
  pop !! j = Some a -> pop ≡ₚ a :: Random.remove_at j pop.
Proof.
  revert j. induction pop as [| b pop IH]; intros [| j] H; try discriminate H.
  - injection H as ->. reflexivity.
  - cbn in *. etrans; [apply Permutation_skip, (IH j H) | apply Permutation_swap].
Qed.

Lemma pick_submseteq {A} draw : forall k i (pop : list A),
  Random.pick draw i k pop ⊆+ pop.
Proof.
  induction k as [| k IH]; intros i pop; cbn; [apply submseteq_nil_l |].
  destruct (pop !! _) as [a |] eqn:E; [| apply submseteq_nil_l].
  etrans; [apply submseteq_skip, IH |].
  apply Permutation_submseteq. symmetry. apply remove_at_perm, E.
Qed.

Lemma pick_length {A} draw : forall k i (pop : list A),
  length (Random.pick draw i k pop) = min k (length pop).
Proof.
  induction k as [| k IH]; intros i pop; cbn [Random.pick]; [reflexivity |].
  destruct pop as [| b pop]; [reflexivity |].
  assert (Hj : (draw i mod length (b :: pop) < length (b :: pop))%nat)
    by (apply Nat.mod_upper_bound; cbn; lia).
  destruct (lookup_lt_is_Some_2 _ _ Hj) as (a & E). rewrite E.
  cbn [length]. rewrite IH.
  pose proof (Permutation_length (remove_at_perm _ _ _ E)) as Hl.
  cbn [length] in Hl. lia.
Qed.

Lemma random_unique_spec draw (buffer : list loc) batch_size :
  match sample_method_random_unique draw buffer batch_size with
  | Ok (batch, n) =>
      (0 <= batch_size)%Z /\
      n = Z.min batch_size (Z.of_nat (length buffer)) /\
      Z.of_nat (length batch) = n /\
      batch ⊆+ buffer /\
      (Z.of_nat (length buffer) <= batch_size -> batch ≡ₚ buffer)%Z
  | Raise e => (batch_size < 0)%Z /\ e = ValueError
  end.
Proof.
  unfold sample_method_random_unique, Random.sample.
  destruct (Z.ltb_spec (Z.of_nat (length buffer)) batch_size) as [Hlt | Hge].
  - destruct (Z.ltb_spec (Z.of_nat (length buffer)) 0); [lia |].
    destruct (Z.ltb_spec (Z.of_nat (length buffer)) (Z.of_nat (length buffer))); [lia |].
    cbn [orb rbind]. rewrite Nat2Z.id.
    pose proof (pick_length draw (length buffer) 0 buffer) as Hl.
    pose proof (pick_submseteq draw (length buffer) 0 buffer) as Hs.
    repeat split; try lia; [exact Hs |].
    intros _. apply submseteq_length_Permutation; [exact Hs | lia].
  - destruct (Z.ltb_spec batch_size 0) as [Hneg | Hpos]; cbn [orb rbind]; [auto |].
    destruct (Z.ltb_spec (Z.of_nat (length buffer)) batch_size); [lia |].
    cbn [rbind].
    pose proof (pick_length draw (Z.to_nat batch_size) 0 buffer) as Hl.
    pose proof (pick_submseteq draw (Z.to_nat batch_size) 0 buffer) as Hs.
    repeat split; try lia; [exact Hs |].
    intros ?. apply submseteq_length_Permutation; [exact Hs | lia].
Qed.

(** X20: [sample_method_random_unique] fails only for a negative
    [batch_size], with [ValueError]; otherwise it returns
    [min(batch_size, len(buffer))] records drawn without replacement (a
    sub-multiset of the buffer) together with that count, and the whole
    buffer in some order when [batch_size >= len(buffer)]. *)
Theorem random_unique_draws_distinct_records draw (buffer : list loc) batch_size :
  match sample_method_random_unique draw buffer batch_size with
  | Ok (batch, n) =>
      (0 <= batch_size)%Z /\
      n = Z.min batch_size (Z.of_nat (length buffer)) /\
      Z.of_nat (length batch) = n /\
      batch ⊆+ buffer /\
      (Z.of_nat (length buffer) <= batch_size -> batch ≡ₚ buffer)%Z
  | Raise e => (batch_size < 0)%Z /\ e = ValueError
  end.
Proof. exact (random_unique_spec draw buffer batch_size). Qed.

Lemma random_indexes draw (buffer : list loc) k :
  buffer <> [] ->
  mapR (fun i => Random.randint 0 (Z.of_nat (length buffer) - 1) (draw i)) (seq 0 k)
  = Ok (map (fun i => (Z.of_nat (draw i) mod Z.of_nat (length buffer))%Z) (seq 0 k)).
Proof.
  intros Hne. apply mapR_all_ok. intros i _. unfold Random.randint.
  assert (0 < length buffer)%nat by (destruct buffer; [congruence | cbn; lia]).
  destruct (Z.ltb_spec (Z.of_nat (length buffer) - 1) 0); [lia |].
  f_equal. rewrite Z.add_0_l. f_equal. lia.
Qed.

Lemma getitem_in_range {A} (l : list A) (i : Z) :
  (0 <= i < Z.of_nat (length l))%Z ->
  exists x, list_getitem l i = Ok x /\ x ∈ l.
Proof.
  intros Hi. unfold list_getitem, norm_index.
  destruct (Z.leb_spec 0 i); [| lia]. destruct (Z.ltb_spec i (Z.of_nat (length l))); [| lia].
  assert (Hn : (Z.to_nat i < length l)%nat) by lia.
  destruct (lookup_lt_is_Some_2 _ _ Hn) as (x & E). rewrite E.
  exists x. split; [reflexivity |]. eapply list_elem_of_lookup_2, E.
Qed.

Lemma random_spec draw (buffer : list loc) batch_size :
  buffer <> [] ->
  exists batch,
    sample_method_random draw buffer batch_size = Ok (batch, batch_size) /\
    length batch = Z.to_nat batch_size /\
    Forall (fun l => l ∈ buffer) batch.
Proof.
  intros Hne. unfold sample_method_random.
  rewrite (random_indexes draw buffer _ Hne). cbn [rbind].
  assert (Hlen : (0 < Z.of_nat (length buffer))%Z)
    by (destruct buffer; [congruence | cbn [length]; lia]).
  assert (G : forall js, exists batch,
            mapR (fun i => list_getitem buffer i)
                 (map (fun i => (Z.of_nat (draw i) mod Z.of_nat (length buffer))%Z) js)
              = Ok batch /\
            length batch = length js /\ Forall (fun l => l ∈ buffer) batch).
  { induction js as [| j js (batch & E & Hl & Hin)].
    - exists []. cbn. auto.
    - cbn [map mapR].
      destruct (getitem_in_range buffer
                  (Z.of_nat (draw j) mod Z.of_nat (length buffer))%Z) as (x & Ex & Hx).
      { apply Z.mod_pos_bound. exact Hlen. }
      rewrite Ex, E. cbn [rbind].
      exists (x :: batch). cbn [length]. repeat split; [lia |].
      apply List.Forall_cons; assumption. }
  destruct (G (seq 0 (Z.to_nat batch_size))) as (batch & E & Hl & Hin).
  rewrite E. cbn [rbind]. exists batch. rewrite length_seq in Hl. auto.
Qed.

(** X21: on a non-empty buffer [sample_method_random] always succeeds; it
    returns [batch_size] unchanged as the count, with [max(batch_size, 0)]
    records, each of them stored in the buffer. *)
Theorem random_draws_with_replacement draw (buffer : list loc) batch_size :
  buffer <> [] ->
  exists batch,
    sample_method_random draw buffer batch_size = Ok (batch, batch_size) /\
    length batch = Z.to_nat batch_size /\
    Forall (fun l => l ∈ buffer) batch.
Proof. exact (random_spec draw buffer batch_size). Qed.

Lemma named_strategy_spec draw name (buffer batch : list loc)
    batch_size n :
  run_sampler draw (ByName name) buffer batch_size = Ok (batch, n) ->
  (0 <= n)%Z ->
  Z.of_nat (length batch) = n /\ Forall (fun l => l ∈ buffer) batch.
Proof.
  unfold run_sampler. intros E Hn.
  destruct (String.eqb name "random_unique").
  - pose proof (random_unique_spec draw buffer batch_size) as H.
    rewrite E in H. destruct H as (_ & _ & Hl & Hs & _).
    split; [exact Hl |]. apply Forall_forall. intros l Hin.
    eapply elem_of_submseteq; eauto.
  - destruct (String.eqb name "random").
    + destruct buffer as [| b buffer].
      * unfold sample_method_random in E.
        destruct (Z.to_nat batch_size) as [| k] eqn:Ek.
        -- cbn in E. injection E as <- <-. split; [cbn; lia | constructor].
        -- cbn in E. discriminate E.
      * destruct (random_spec draw (b :: buffer) batch_size)
          as (batch' & E' & Hl & Hin); [discriminate |].
        rewrite E' in E. injection E as <- <-. split; [lia | exact Hin].
    + destruct (String.eqb name "all"); [| discriminate E].
      unfold sample_method_all in E. injection E as <- <-.
      split; [reflexivity |]. apply Forall_forall. auto.
Qed.

(** X22: whichever of the three named strategies is used, when the count
    it returns is not negative it is the number of records in the
    returned batch, and every one of these records is in the buffer. *)
Theorem named_strategy_batch_matches_count draw name (buffer batch : list loc)
    batch_size n :
  run_sampler draw (ByName name) buffer batch_size = Ok (batch, n) ->
  (0 <= n)%Z ->
  Z.of_nat (length batch) = n /\ Forall (fun l => l ∈ buffer) batch.
Proof. exact (named_strategy_spec draw name buffer batch batch_size n). Qed.

(** *** The result tuple *)

(** X23: when no sampled key is the wildcard ["*"] (unless it is itself a
    main attribute), the tuple returned by [concatenate_batch] has exactly
    one entry per sampled key. *)
Theorem result_is_aligned_with_sample_keys self (h : heap) batch batch_size
    concatenate dev sample_keys additional_concat_keys res :
  concatenate_batch self h batch batch_size concatenate dev sample_keys
    additional_concat_keys = Ok res ->
  Forall (fun k => k = "*" -> mem k (main_attrs self) = true) sample_keys ->
  length res = length sample_keys.
Proof.
  unfold concatenate_batch. generalize (@nil string) as used.
  intros used E Hk. revert used res E.
  induction Hk as [| k ks Hk _ IH]; intros used res E; cbn [concat_loop] in E.
  - injection E as <-. reflexivity.
  - destruct (mem k (main_attrs self)) eqn:Em.
    { destruct (concat_main _ _ _ _ _) as [o |]; [cbn [rbind] in E | discriminate E].
      destruct (concat_loop _ _ _ _ _ _ _ _ ks) as [os |] eqn:El; [| discriminate E].
      cbn [rbind] in E. injection E as <-. cbn [length]. f_equal. eapply IH, El. }
    destruct (String.eqb k "reward").
    { destruct (concat_reward _ _ _ _) as [o |]; [cbn [rbind] in E | discriminate E].
      destruct (concat_loop _ _ _ _ _ _ _ _ ks) as [os |] eqn:El; [| discriminate E].
      cbn [rbind] in E. injection E as <-. cbn [length]. f_equal. eapply IH, El. }
    destruct (String.eqb k "terminal").
    { destruct (float_column _ _ _ _ _) as [o |]; [cbn [rbind] in E | discriminate E].
      destruct (concat_loop _ _ _ _ _ _ _ _ ks) as [os |] eqn:El; [| discriminate E].
      cbn [rbind] in E. injection E as <-. cbn [length]. f_equal. eapply IH, El. }
    destruct (String.eqb_spec k "*") as [-> | Hne].
    { specialize (Hk eq_refl). congruence. }
    destruct (concat_custom _ _ _ _ _ _) as [o |]; [cbn [rbind] in E | discriminate E].
    destruct (concat_loop _ _ _ _ _ _ _ _ ks) as [os |] eqn:El; [| discriminate E].
    cbn [rbind] in E. injection E as <-. cbn [length]. f_equal. eapply IH, El.
Qed.

(** *** Devices *)




Lemma view_device x n y : Torch.view x n = Ok y -> device y = device x.
Proof.
  unfold Torch.view. destruct (n <=? 0)%Z; [discriminate |].
  destruct (_ =? 0)%nat; [| discriminate]. intros [= <-]. reflexivity.
Qed.




Lemma concat_custom_device (h : heap) dev k batch n add o :
  concat_custom h dev k batch n add = Ok o -> out_on_device dev o.
Proof.
  unfold concat_custom.
  destruct (mapR _ batch) as [vs |]; [cbn [rbind] | discriminate].
  destruct (mem k add); [| intros [= <-]; exact I].
  unfold Torch.tensor_of_values.
  destruct (mapR Torch.scalar vs) as [xs |]; [cbn [rbind] | discriminate].
  destruct (existsb Torch.is_float vs || forallb Torch.in_int64 vs);
    [cbn [rbind] | discriminate].
  destruct (Torch.view _ n) as [x |] eqn:Ev; [cbn [rbind] | discriminate].
  intros [= <-]. cbn. rewrite (view_device _ _ _ Ev). reflexivity.
Qed.

Lemma concat_wildcard_device (h : heap) dev batch n add used remain : forall os,
  concat_wildcard h dev batch n add used remain = Ok os ->
  Forall (out_on_device dev) os.
Proof.
  induction remain as [| k remain IH]; intros os E; cbn [concat_wildcard] in E.
  - injection E as <-. constructor.
  - destruct (negb (mem k base_keys) && negb (mem k used)); [| apply IH, E].
    destruct (concat_custom _ _ _ _ _ _) as [o |] eqn:Ec; [cbn [rbind] in E | discriminate E].
    destruct (concat_wildcard _ _ _ _ _ _ remain) as [os' |]; [| discriminate E].
    cbn [rbind] in E. injection E as <-.
    constructor; [eapply concat_custom_device, Ec | apply IH; reflexivity].
Qed.







(** *** Shapes *)









Lemma float_column_shape (h : heap) dev k batch n o :
  float_column h dev k batch n = Ok o ->
  (0 < n)%Z /\
  exists x, o = OutTensor x /\
    shape x = [Z.to_nat n; (length batch / Z.to_nat n)%nat] /\
    (length batch mod Z.to_nat n = 0)%nat /\
    length (data x) = length batch.
Proof.
  unfold float_column.
  destruct (mapR _ batch) as [xs |] eqn:Em; [cbn [rbind] | discriminate].
  pose proof (mapR_length _ _ _ Em) as Hl.
  unfold Torch.view, Torch.tensor_of_floats. cbn [shape data device Torch.numel fold_right].
  rewrite Nat.mul_1_r, Hl.
  destruct (Z.leb_spec n 0); [discriminate |].
  destruct (Nat.eqb_spec (length batch mod Z.to_nat n) 0); [| discriminate].
  cbn [rbind]. intros [= <-]. split; [lia |].
  eexists. split; [reflexivity |]. cbn [shape data]. auto.
Qed.

(** X27: sampling only ["terminal"] with a named strategy, when it
    succeeds, returns a positive count [n] and a single tensor of shape
    [[n, 1]] holding one flag per sampled record. *)
Theorem terminal_column_has_one_row_per_record self (h : heap) draw batch_size
    concatenate dev name additional_concat_keys n res :
  mem "terminal" (main_attrs self) = false ->
  sample_batch self h draw batch_size concatenate dev (ByName name)
    (Some ["terminal"]) additional_concat_keys = Ok (n, res) ->
  (0 < n)%Z /\
  exists x, res = [OutTensor x] /\ shape x = [Z.to_nat n; 1%nat] /\
            length (data x) = Z.to_nat n.
Proof.
  intros Hm. unfold sample_batch.
  destruct (run_sampler _ _ _ _) as [[batch n'] |] eqn:Es; [cbn [rbind fst snd] | discriminate].
  unfold concatenate_batch. cbn [concat_loop]. rewrite Hm. cbn [String.eqb Ascii.eqb Bool.eqb].
  destruct (float_column _ _ _ _ _) as [o |] eqn:Ef; [cbn [rbind] | discriminate].
  intros [= <- <-].
  destruct (float_column_shape _ _ _ _ _ _ Ef) as (Hn & x & -> & Hs & _ & Hd).
  destruct (named_strategy_spec _ _ _ _ _ _ Es) as [Hl _]; [lia |].
  split; [exact Hn |]. exists x. split; [reflexivity |].
  rewrite Hs, Hd. replace (length batch) with (Z.to_nat n') by lia.
  rewrite Nat.div_same by lia. auto.
Qed.

(** *** Rewards and the wildcard *)

Lemma float_rewards_read (h : heap) batch qs :
  Forall2 (fun l q => item_get h "reward" l = Ok (VFloat q)) batch qs ->
  mapR (fun item => let+ v := item_get h "reward" item in py_float v) batch = Ok qs.
Proof.
  induction 1 as [| l q batch qs Hq _ IH]; [reflexivity |].
  cbn [mapR]. rewrite Hq. cbn [rbind py_float]. rewrite IH. reflexivity.
Qed.

(** X28: when every record of a non-empty batch has a float reward that
    single precision holds exactly, the reward entry for the whole batch
    is a tensor of shape [[n, 1]] on the requested device holding these
    rewards in batch order. *)
Theorem float_rewards_become_a_column (h : heap) dev batch qs :
  batch <> [] ->
  Forall2 (fun l q => item_get h "reward" l = Ok (VFloat q)) batch qs ->
  forallb Torch.is_float32 qs = true ->
  concat_reward h dev batch (Z.of_nat (length batch)) =
    Ok (OutTensor (mkTensor [length batch; 1%nat] dev qs)).
Proof.
  intros Hne Hq _. pose proof (Forall2_length _ _ _ Hq) as Hl.
  unfold concat_reward.
  destruct Hq as [| b0 q0 batch qs Hq0 Hq]; [congruence |].
  rewrite list_getitem_0. cbn [rbind]. rewrite Hq0. cbn [rbind].
  unfold float_column.
  rewrite (float_rewards_read h (b0 :: batch) (q0 :: qs))
    by (apply List.Forall2_cons; assumption).
  cbn [rbind]. unfold Torch.view, Torch.tensor_of_floats.
  cbn [shape data device Torch.numel fold_right]. rewrite Nat.mul_1_r, <- Hl.
  destruct (Z.leb_spec (Z.of_nat (length (b0 :: batch))) 0); [cbn [length] in *; lia |].
  assert (length (b0 :: batch) <> 0)%nat by discriminate.
  rewrite Nat2Z.id, Nat.Div0.mod_same, Nat.div_same by assumption.
  reflexivity.
Qed.

Lemma concat_wildcard_length (h : heap) dev batch n add used remain : forall os,
  concat_wildcard h dev batch n add used remain = Ok os ->
  length os =
  length (List.filter (fun k => negb (mem k base_keys) && negb (mem k used)) remain).
Proof.
  induction remain as [| k remain IH]; intros os E; cbn [concat_wildcard] in E.
  - injection E as <-. reflexivity.
  - cbn [List.filter].
    destruct (negb (mem k base_keys) && negb (mem k used)); [| apply IH, E].
    destruct (concat_custom _ _ _ _ _ _) as [o |]; [cbn [rbind] in E | discriminate E].
    destruct (concat_wildcard _ _ _ _ _ _ remain) as [os' |] eqn:Ew; [| discriminate E].
    cbn [rbind] in E. injection E as <-. cbn [length]. f_equal. apply IH. reflexivity.
Qed.

(** X29: sampling the wildcard alone returns one entry per key of the
    first record of the batch that is not one of the five fields, and
    nothing for the five fields themselves. *)
Theorem wildcard_selects_custom_keys self (h : heap) batch n concatenate dev
    additional_concat_keys res :
  mem "*" (main_attrs self) = false ->
  concatenate_batch self h batch n concatenate dev ["*"] additional_concat_keys
    = Ok res ->
  exists b0 tr0,
    head batch = Some b0 /\ get_transition h b0 = Ok tr0 /\
    length res =
    length (List.filter (fun k => negb (mem k base_keys)) (keys tr0)).
Proof.
  intros Hm. unfold concatenate_batch. cbn [concat_loop]. rewrite Hm.
  cbn [String.eqb Ascii.eqb Bool.eqb].
  destruct batch as [| b0 batch]; [discriminate |].
  rewrite list_getitem_0. cbn [rbind].
  destruct (get_transition h b0) as [tr0 |] eqn:Et; [cbn [rbind] | discriminate].
  destruct (concat_wildcard _ _ _ _ _ _ _) as [o |] eqn:Ew; [cbn [rbind] | discriminate].
  intros [= <-]. exists b0, tr0. split; [reflexivity |]. split; [exact Et |].
  rewrite app_nil_r, (concat_wildcard_length _ _ _ _ _ _ _ _ Ew).
  f_equal. apply filter_ext. intros k. cbn [mem]. rewrite andb_true_r. reflexivity.
Qed.


(** *** The facts above, on the store of [Examples] that has seen three records *)

Lemma random_draws_with_replacement_witness :
  exists batch,
    sample_method_random count_up [R1; R2] 3 = Ok (batch, 3%Z) /\
    length batch = 3%nat.
Proof.
  destruct (random_draws_with_replacement count_up [R1; R2] 3)
    as (batch & E & Hl & _); [discriminate |].
  exists batch. split; [exact E | exact Hl].
Defined.

Lemma named_strategy_batch_matches_count_witness :
  Z.of_nat (length [R1; R2]) = 2%Z /\ Forall (fun l => l ∈ [R1; R2]) [R1; R2].
Proof.
  apply (named_strategy_batch_matches_count count_up "all" [R1; R2] [R1; R2] 7 2).
  - reflexivity.
  - lia.
Defined.

Lemma result_is_aligned_with_sample_keys_witness :
  exists res,
    concatenate_batch (snd used_store) (fst used_store) [R3; R2] 2 true "cpu"
      ["state"; "reward"; "terminal"] [] = Ok res /\
    length res = 3%nat.
Proof.
  eexists. split; [vm_compute; reflexivity |].
  eapply (result_is_aligned_with_sample_keys (snd used_store) (fst used_store)
            [R3; R2] 2 true "cpu" ["state"; "reward"; "terminal"] []).
  - vm_compute. reflexivity.
  - repeat (apply List.Forall_cons; [discriminate |]). apply List.Forall_nil.
Defined.




Lemma terminal_column_has_one_row_per_record_witness :
  exists x,
    [OutTensor (mkTensor [2; 1]%nat "cpu" [0%Q; 0%Q])] = [OutTensor x] /\
    shape x = [Z.to_nat 2; 1%nat] /\ length (data x) = Z.to_nat 2.
Proof.
  refine (proj2 (terminal_column_has_one_row_per_record (snd used_store)
            (fst used_store) count_up 5 true None "all" None 2%Z
            [OutTensor (mkTensor [2; 1]%nat "cpu" [0%Q; 0%Q])] _ _)).
  - reflexivity.
  - vm_compute. reflexivity.
Defined.

Lemma float_rewards_become_a_column_witness :
  concat_reward (fst used_store) "cpu" [R3; R2] 2 =
    Ok (OutTensor (mkTensor [2; 1]%nat "cpu" [3%Q; 2%Q])).
Proof.
  apply (float_rewards_become_a_column (fst used_store) "cpu" [R3; R2] [3%Q; 2%Q]).
  - discriminate.
  - repeat (apply List.Forall2_cons; [vm_compute; reflexivity |]).
    apply List.Forall2_nil.
  - reflexivity.
Defined.

Lemma wildcard_selects_custom_keys_witness :
  exists b0 tr0,
    head [log_prob_step] = Some b0 /\ get_transition mixed_steps b0 = Ok tr0 /\
    length [OutList [VFloat 0%Q]] =
    length (List.filter (fun k => negb (mem k base_keys)) (keys tr0)).
Proof.
  apply (wildcard_selects_custom_keys (ReplayBuffer.init 3 "cpu" None) mixed_steps
           [log_prob_step] 1 true "cpu" [] [OutList [VFloat 0%Q]]).
  - reflexivity.
  - vm_compute. reflexivity.
Defined.

End SamplingFacts.

(** ** The gate after [update] *)

Module GateFacts.
Import A3C A3CFacts.



End GateFacts.
